(** * Invoice approval workflow of [src/invoice-server.ts]

    A shallow embedding of the invoice MCP server: the in-memory
    [approvals] map, the four tool handlers of the [CallToolRequestSchema]
    dispatcher and the [processInvoice] workflow.

    JavaScript runs every handler, and every stretch of the workflow between
    two [await]s, without interruption.  The model therefore cuts
    [processInvoice] at its suspension points (the poll sleep, the awaited
    payment, the return) into blocks, and an execution of the server is a
    sequence of events: a tool call is handled, time passes, or a suspended
    workflow is resumed for one block.  Which event comes next is not fixed
    by the program, so properties are stated either for a single block in
    any world, or for all worlds reachable by any sequence of events.

    The entries of [approvals] are mutable objects that the workflow keeps a
    reference to across its payment loop while [submit_invoice] may replace
    the entry; the model keeps the objects in a heap and maps ids to
    references.

    The Resonate SDK is outside the repository.  Two things are taken from
    it: an execution is started under an id and an id that already has an
    execution yields that execution (see [durableProcessInvoice]); and the
    body of a started workflow is entered at some later point, which the
    model leaves open ([NotStarted]). *)

From stdpp Require Import base strings list gmap pretty.
From Stdlib Require Import ZArith Lia.

(** ** Numbers

    [amount] and [totalAmount] are JavaScript numbers.  The program only adds
    them ([sum + line.amount]) and prints them inside template literals, so
    the model is parametric in a number type offering exactly that. *)

Class JsNumber (num : Type) := {
  num_zero : num;
  num_add : num → num → num;
  num_show : num → string
}.

(** Integer amounts, printed in decimal as JavaScript prints them. *)
#[export] Instance Z_number : JsNumber Z := {|
  num_zero := 0%Z;
  num_add := Z.add;
  num_show := pretty
|}.

(** The line feed of the template literals. *)
Definition nl : string := String (Ascii.ascii_of_nat 10) EmptyString.

(** [status: 'pending' | 'approved' | 'rejected' | 'processing' | 'completed'] *)
Inductive Status := pending | approved | rejected | processing | completed.

#[export] Instance Status_eq_dec : EqDecision Status.
Proof. solve_decision. Defined.

(** [`${state.status}`] *)
Definition status_text (s : Status) : string :=
  match s with
  | pending => "pending"
  | approved => "approved"
  | rejected => "rejected"
  | processing => "processing"
  | completed => "completed"
  end.

(** What a tool call yields: the text of its single content item, or the
    message of the [Error] it throws. *)
Inductive Response := Ok (text : string) | Throw (message : string).

(** [const timeout = 5 * 60 * 1000], [const pollInterval = 1000], and the
    [setTimeout(resolve, 100)] of [processPayment]; all in milliseconds. *)
Definition timeout : Z := 5 * 60 * 1000.
Definition pollInterval : Z := 1000.
Definition paymentDelay : Z := 100.

(** ** The tool list (lines 164-238)

    What the [ListToolsRequestSchema] handler returns: for each tool its
    name, its description and the JSON schema of its arguments. *)
#[warnings="-register-all"] Inductive Schema :=
| SPrimitive (type : string) (description : option string)
| SArray (description : string) (items : Schema)
| SObject (properties : list (string * Schema)) (required : list string).

Record Tool := {
  tool_name : string;
  tool_description : string;
  inputSchema : Schema
}.

Definition list_tools : list Tool := [
  {| tool_name := "submit_invoice";
     tool_description :=
       "Submit an invoice for processing. The invoice will wait for human approval before processing payments. Automatically handles failures, retries, and maintains state across crashes.";
     inputSchema :=
       SObject
         [("invoice_id",
           SPrimitive "string" (Some "Unique identifier for this invoice"));
          ("lines",
           SArray "Invoice line items"
             (SObject [("item", SPrimitive "string" None);
                       ("amount", SPrimitive "number" None);
                       ("description", SPrimitive "string" None)]
                      ["item"; "amount"; "description"]))]
         ["invoice_id"; "lines"] |};
  {| tool_name := "approve_invoice";
     tool_description := "Approve a pending invoice for payment processing";
     inputSchema :=
       SObject
         [("invoice_id", SPrimitive "string" (Some "ID of the invoice to approve"))]
         ["invoice_id"] |};
  {| tool_name := "reject_invoice";
     tool_description := "Reject a pending invoice";
     inputSchema :=
       SObject
         [("invoice_id", SPrimitive "string" (Some "ID of the invoice to reject"))]
         ["invoice_id"] |};
  {| tool_name := "check_invoice_status";
     tool_description := "Check the current status of an invoice";
     inputSchema :=
       SObject
         [("invoice_id", SPrimitive "string" (Some "ID of the invoice to check"))]
         ["invoice_id"] |}
].

(** The argument names a schema marks as required. *)
Definition required_arguments (s : Schema) : list string :=
  match s with
  | SObject _ required => required
  | _ => []
  end.

Section Model.
Context {num : Type} {number : JsNumber num}.

Record InvoiceLine := { item : string; amount : num; description : string }.

Record Invoice := { id : string; lines : list InvoiceLine; totalAmount : num }.

(** The value type of the [approvals] map.  Entries are mutable objects:
    the map holds references into [heap]. *)
Record ApprovalState := {
  status : Status;
  invoice : Invoice;
  result : option string
}.

Definition with_status (s : Status) (st : ApprovalState) : ApprovalState :=
  {| status := s; invoice := invoice st; result := result st |}.

Definition with_result (r : string) (st : ApprovalState) : ApprovalState :=
  {| status := status st; invoice := invoice st; result := Some r |}.

(** Where a [processInvoice] run is suspended. *)
Inductive PC :=
| NotStarted
    (* registered with the SDK, body not entered yet *)
| Sleeping (startTime wakeAt : Z)
    (* line 111: inside the poll loop, waiting for [pollInterval] *)
| Paying (finalState : nat) (results : list string)
         (line : InvoiceLine) (rest : list InvoiceLine) (readyAt : Z)
    (* line 132: awaiting [ctx.run(processPayment, line)] *)
| Returned (value : string).
    (* the promise is resolved with [value] *)

(** One durable execution.  [callbacks] are the [.then] closures of
    [submit_invoice] that have not run yet, each represented by the
    [invoice_id] it captured. *)
Record Task := {
  exec_id : string;
  t_invoice : Invoice;
  pc : PC;
  callbacks : list string
}.

Record World := {
  now : Z;                            (* Date.now() *)
  heap : list ApprovalState;          (* the state objects *)
  approvals : gmap string nat;        (* const approvals = new Map() *)
  tasks : list Task;                  (* executions known to the SDK *)
  payments : list (nat * InvoiceLine) (* processPayment calls: task, line *)
}.

Definition init (t0 : Z) : World :=
  {| now := t0; heap := []; approvals := ∅; tasks := []; payments := [] |}.

Definition set_now (t : Z) (w : World) : World :=
  {| now := t; heap := heap w; approvals := approvals w;
     tasks := tasks w; payments := payments w |}.

Definition set_heap (h : list ApprovalState) (w : World) : World :=
  {| now := now w; heap := h; approvals := approvals w;
     tasks := tasks w; payments := payments w |}.

Definition set_tasks (ts : list Task) (w : World) : World :=
  {| now := now w; heap := heap w; approvals := approvals w;
     tasks := ts; payments := payments w |}.

Definition with_pc (p : PC) (t : Task) : Task :=
  {| exec_id := exec_id t; t_invoice := t_invoice t; pc := p;
     callbacks := callbacks t |}.

Definition with_callbacks (cbs : list string) (t : Task) : Task :=
  {| exec_id := exec_id t; t_invoice := t_invoice t; pc := pc t;
     callbacks := cbs |}.

Definition set_pc (k : nat) (p : PC) (w : World) : World :=
  set_tasks (alter (with_pc p) k (tasks w)) w.

(** [approvals.get(id)]: the reference and the object behind it. *)
Definition approvals_get (w : World) (iid : string) : option (nat * ApprovalState) :=
  l ← approvals w !! iid; st ← heap w !! l; Some (l, st).

(** [approvals.set(id, {...})]: a fresh object replaces whatever the key held. *)
Definition approvals_set (iid : string) (st : ApprovalState) (w : World) : World :=
  {| now := now w; heap := heap w ++ [st];
     approvals := <[iid := length (heap w)]> (approvals w);
     tasks := tasks w; payments := payments w |}.

(** [state.status = s] and [state.result = r] on the object at [l]. *)
Definition write_status (l : nat) (s : Status) (w : World) : World :=
  set_heap (alter (with_status s) l (heap w)) w.

Definition write_result (l : nat) (r : string) (w : World) : World :=
  set_heap (alter (with_result r) l (heap w)) w.

(** The status stored under an invoice id, as a status query sees it. *)
Definition stored_status (w : World) (iid : string) : option Status :=
  status ∘ snd <$> approvals_get w iid.

(** ** processPayment (lines 55-67) *)

Definition processPayment (line : InvoiceLine) : string :=
  "Processed payment for " +:+ item line +:+ ": $" +:+ num_show (amount line).

(** The lines whose payment task [k] has invoked, oldest first. *)
Definition paid (w : World) (k : nat) : list InvoiceLine :=
  snd <$> filter (λ e, fst e = k) (payments w).

(** ** processInvoice (lines 82-143) *)

(** Lines 136-139: the end of the payment loop. *)
Definition finish (k l : nat) (results : list string) (w : World) : World :=
  let joined := String.concat nl results in
  set_pc k (Returned ("COMPLETED" +:+ nl +:+ joined))
    (write_result l joined (write_status l completed w)).

(** Lines 131-134, from the head of the [for] loop: either the next
    [ctx.run(processPayment, line)] is issued and awaited, or the loop is
    over. *)
Definition pay_loop (k l : nat) (results : list string)
    (remaining : list InvoiceLine) (w : World) : World :=
  match remaining with
  | [] => finish k l results w
  | line :: rest =>
      set_pc k (Paying l results line rest (now w + paymentDelay))
        {| now := now w; heap := heap w; approvals := approvals w;
           tasks := tasks w; payments := payments w ++ [(k, line)] |}
  end.

(** Lines 114-142: after the poll loop. *)
Definition after_gate (k : nat) (inv : Invoice) (w : World) : World :=
  match approvals_get w (id inv) with
  | Some (l, finalState) =>
      match status finalState with
      | pending =>
          set_pc k (Returned "REJECTED due to timeout") (write_status l rejected w)
      | approved =>
          pay_loop k l [] (lines inv) (write_status l processing w)
      | _ => set_pc k (Returned "REJECTED") w
      end
  | None => set_pc k (Returned "REJECTED") w
  end.

(** Lines 99-112, from the loop condition to the next suspension. *)
Definition poll_loop (k : nat) (inv : Invoice) (startTime : Z) (w : World) : World :=
  if (now w - startTime <? timeout)%Z then
    match status ∘ snd <$> approvals_get w (id inv) with
    | Some approved => after_gate k inv w
    | Some rejected => set_pc k (Returned "REJECTED by user") w
    | _ => set_pc k (Sleeping startTime (now w + pollInterval)) w
    end
  else after_gate k inv w.

(** Lines 86-97, then the loop. *)
Definition start (k : nat) (inv : Invoice) (w : World) : World :=
  let w1 :=
    match approvals_get w (id inv) with
    | Some (l, _) => write_status l pending w
    | None => w
    end in
  poll_loop k inv (now w1) w1.

(** Lines 265-270: [result => { const state = approvals.get(invoice_id);
    if (state) state.result = result }]. *)
Definition store_result (iid : string) (r : string) (w : World) : World :=
  match approvals_get w iid with
  | Some (l, _) => write_result l r w
  | None => w
  end.

(** The scheduler resumes task [k]: its next atomic block runs.  [None] when
    the task does not exist or has nothing to run yet (its timer has not
    fired, or it has returned and no callback is waiting). *)
Definition run_task (k : nat) (w : World) : option World :=
  t ← tasks w !! k;
  match pc t with
  | NotStarted => Some (start k (t_invoice t) w)
  | Sleeping startTime wakeAt =>
      if (wakeAt <=? now w)%Z then Some (poll_loop k (t_invoice t) startTime w)
      else None
  | Paying l results line rest readyAt =>
      if (readyAt <=? now w)%Z
      then Some (pay_loop k l (results ++ [processPayment line]) rest w)
      else None
  | Returned r =>
      match callbacks t with
      | iid :: cbs =>
          Some (store_result iid r
                  (set_tasks (alter (with_callbacks cbs) k (tasks w)) w))
      | [] => None
      end
  end.

(** ** The SDK entry point *)

Fixpoint find_execution (eid : string) (ts : list Task) : option nat :=
  match ts with
  | [] => None
  | t :: ts' =>
      if String.eqb (exec_id t) eid then Some 0
      else S <$> find_execution eid ts'
  end.

(** Modelled from the spec: the function returned by
    [resonate.register('processInvoice', processInvoice)] belongs to the
    Resonate SDK, which is not part of the repository.  The spec makes the
    execution id the idempotency key: starting an execution with an id that
    already exists returns the existing one rather than starting a new one.
    The call yields the promise of execution [k]. *)
Definition durableProcessInvoice (eid : string) (inv : Invoice) (w : World) : nat * World :=
  match find_execution eid (tasks w) with
  | Some k => (k, w)
  | None =>
      (length (tasks w),
       set_tasks (tasks w ++ [{| exec_id := eid; t_invoice := inv;
                                 pc := NotStarted; callbacks := [] |}]) w)
  end.

(** [promise.then(callback)] on the promise of execution [k]. *)
Definition then_ (k : nat) (iid : string) (w : World) : World :=
  set_tasks (alter (λ t, with_callbacks (callbacks t ++ [iid]) t) k (tasks w)) w.

(** ** The tool handlers (lines 241-357) *)

(** [request.params.arguments], cast by each handler to what it needs. *)
Record Args := { invoice_id : string; args_lines : list InvoiceLine }.

Definition submit_invoice (args : Args) (w : World) : World * Response :=
  let totalAmount :=
    fold_left (λ sum line, num_add sum (amount line)) (args_lines args) num_zero in
  let inv := {| id := invoice_id args; lines := args_lines args;
                totalAmount := totalAmount |} in
  let w1 := approvals_set (invoice_id args)
              {| status := pending; invoice := inv; result := None |} w in
  let '(k, w2) := durableProcessInvoice ("invoice-" +:+ invoice_id args) inv w1 in
  (then_ k (invoice_id args) w2,
   Ok ("Invoice " +:+ invoice_id args +:+ " submitted for approval. Total: $"
       +:+ num_show totalAmount +:+ nl
       +:+ "Use approve_invoice or reject_invoice to respond.")).

(** [approve_invoice] and [reject_invoice] differ in the status they write
    and in their acknowledgement only. *)
Definition decide_invoice (s : Status) (ack : string) (args : Args) (w : World)
    : World * Response :=
  match approvals_get w (invoice_id args) with
  | None => (w, Throw ("Invoice " +:+ invoice_id args +:+ " not found"))
  | Some (l, state) =>
      match status state with
      | pending => (write_status l s w, Ok ack)
      | other =>
          (w, Throw ("Invoice " +:+ invoice_id args +:+ " is not pending (status: "
                     +:+ status_text other +:+ ")"))
      end
  end.

Definition approve_invoice (args : Args) : World → World * Response :=
  decide_invoice approved
    ("Invoice " +:+ invoice_id args +:+ " approved! Processing payments...") args.

Definition reject_invoice (args : Args) : World → World * Response :=
  decide_invoice rejected ("Invoice " +:+ invoice_id args +:+ " rejected.") args.

(** [if (state.result)]: an absent result and the empty string are falsy. *)
Definition result_section (st : ApprovalState) : string :=
  match result st with
  | Some (String c r) => nl +:+ "Result:" +:+ nl +:+ String c r
  | _ => ""
  end.

Definition status_report (iid : string) (st : ApprovalState) : string :=
  "Invoice " +:+ iid +:+ ":" +:+ nl
  +:+ "Status: " +:+ status_text (status st) +:+ nl
  +:+ "Total Amount: $" +:+ num_show (totalAmount (invoice st)) +:+ nl
  +:+ result_section st.

Definition check_invoice_status (args : Args) (w : World) : World * Response :=
  match approvals_get w (invoice_id args) with
  | None => (w, Throw ("Invoice " +:+ invoice_id args +:+ " not found"))
  | Some (_, state) => (w, Ok (status_report (invoice_id args) state))
  end.

(** The [CallToolRequestSchema] handler. *)
Definition call_tool (name : string) (args : Args) (w : World) : World * Response :=
  if String.eqb name "submit_invoice" then submit_invoice args w
  else if String.eqb name "approve_invoice" then approve_invoice args w
  else if String.eqb name "reject_invoice" then reject_invoice args w
  else if String.eqb name "check_invoice_status" then check_invoice_status args w
  else (w, Throw ("Unknown tool: " +:+ name)).

(** ** Executions of the whole server *)

Inductive Event :=
| Call (name : string) (args : Args)   (* a tool request is handled *)
| Tick (d : Z)                         (* [d] milliseconds pass *)
| Run (k : nat).                       (* task [k] is resumed *)

Definition step (e : Event) (w : World) : option World :=
  match e with
  | Call name args => Some (fst (call_tool name args w))
  | Tick d => if (0 <=? d)%Z then Some (set_now (now w + d) w) else None
  | Run k => run_task k w
  end.

Fixpoint exec (es : list Event) (w : World) : option World :=
  match es with
  | [] => Some w
  | e :: es' => w' ← step e w; exec es' w'
  end.

Definition reachable (w : World) : Prop :=
  ∃ t0 es, exec es (init t0) = Some w.

(** Schedules on which task [k] runs undisturbed: [n] polls one
    [pollInterval] apart, and [n] payments one [paymentDelay] apart. *)
Fixpoint poll_schedule (k n : nat) : list Event :=
  match n with
  | 0 => []
  | S n' => Tick pollInterval :: Run k :: poll_schedule k n'
  end.

Fixpoint pay_schedule (k n : nat) : list Event :=
  match n with
  | 0 => []
  | S n' => Tick paymentDelay :: Run k :: pay_schedule k n'
  end.

(** ** Vocabulary of the properties *)

(** The three values [processInvoice] returns on its rejection paths. *)
Definition is_rejection (r : string) : Prop :=
  r = "REJECTED by user" ∨ r = "REJECTED due to timeout" ∨ r = "REJECTED".

(** The edges of the status diagram:
    pending → approved → processing → completed, pending → rejected. *)
Inductive transition : Status → Status → Prop :=
| tr_approve : transition pending approved
| tr_reject : transition pending rejected
| tr_process : transition approved processing
| tr_complete : transition processing completed.

(** Moving forward along the diagram, in any number of edges. *)
Definition forward : Status → Status → Prop := rtc transition.

(** The two writes of ['pending']: [submit_invoice] on the id (a fresh
    entry), and the first block of a workflow for the id (line 91). *)
Definition writes_pending (e : Event) (w : World) (iid : string) : Prop :=
  match e with
  | Call name args => name = "submit_invoice" ∧ invoice_id args = iid
  | Run k => ∃ t, tasks w !! k = Some t ∧ pc t = NotStarted ∧ id (t_invoice t) = iid
  | Tick _ => False
  end.

(** A [submit_invoice] for the id. *)
Definition resubmits (iid : string) (e : Event) : Prop :=
  match e with
  | Call name args => name = "submit_invoice" ∧ invoice_id args = iid
  | _ => False
  end.

(** Every workflow of the id is past its first block (lines 86-92). *)
Definition workflows_started (w : World) (iid : string) : Prop :=
  ∀ k t, tasks w !! k = Some t → id (t_invoice t) = iid → pc t ≠ NotStarted.

(** The amounts of the lines, added from left to right starting from zero. *)
Definition sum_amounts (ls : list InvoiceLine) : num :=
  fold_left num_add (amount <$> ls) num_zero.

(** *** Invariants of reachable worlds *)

(** The program counter a task has after entering the payment loop with
    [remaining] lines to go (see [pay_loop]). *)
Definition pay_pc (l : nat) (results : list string) (remaining : list InvoiceLine)
    (readyAt : Z) : PC :=
  match remaining with
  | [] => Returned ("COMPLETED" +:+ nl +:+ String.concat nl results)
  | line :: rest => Paying l results line rest readyAt
  end.

(** Before the gate: the task has not left the poll loop yet. *)
Definition before_gate (p : PC) : Prop :=
  match p with NotStarted | Sleeping _ _ => True | _ => False end.

(** How one block moves the program counter of a task for invoice [inv],
    and the payments it invokes on the way. *)
Inductive advances (inv : Invoice) : PC → PC → list InvoiceLine → Prop :=
| adv_sleep p startTime wakeAt :
    before_gate p → advances inv p (Sleeping startTime wakeAt) []
| adv_reject p r :
    before_gate p → is_rejection r → advances inv p (Returned r) []
| adv_gate p l readyAt :
    before_gate p →
    advances inv p (pay_pc l [] (lines inv) readyAt) (take 1 (lines inv))
| adv_pay l results line rest readyAt readyAt' :
    advances inv (Paying l results line rest readyAt)
      (pay_pc l (results ++ [processPayment line]) rest readyAt') (take 1 rest)
| adv_callback r :
    advances inv (Returned r) (Returned r) [].

(** Payments follow the line items: a task that has not passed the gate has
    invoked none, a paying task has invoked exactly the lines up to the one
    it awaits, and a task that returned either was rejected without any
    payment or paid every line in order. *)
Definition pc_paid_ok (inv : Invoice) (p : PC) (pd : list InvoiceLine) : Prop :=
  match p with
  | NotStarted | Sleeping _ _ => pd = []
  | Paying _ results line rest _ =>
      ∃ done, lines inv = done ++ line :: rest
              ∧ pd = done ++ [line]
              ∧ results = processPayment <$> done
  | Returned r =>
      (is_rejection r ∧ pd = [])
      ∨ (r = "COMPLETED" +:+ nl +:+ String.concat nl (processPayment <$> lines inv)
         ∧ pd = lines inv)
  end.

Definition payments_ok (w : World) : Prop :=
  (∀ k t, tasks w !! k = Some t → pc_paid_ok (t_invoice t) (pc t) (paid w k))
  ∧ Forall (λ e, fst e < length (tasks w)) (payments w).

(** The store is well formed: every key refers to a live object that carries
    the key as its invoice id; executions are keyed by ["invoice-" + id]
    without repetition; and the object a paying task holds is the one it
    moved to ['processing']. *)
Definition store_ok (w : World) : Prop :=
  (∀ iid l, approvals w !! iid = Some l →
     ∃ st, heap w !! l = Some st ∧ id (invoice st) = iid)
  ∧ (∀ k t, tasks w !! k = Some t → exec_id t = "invoice-" +:+ id (t_invoice t))
  ∧ (∀ k k' t t', tasks w !! k = Some t → tasks w !! k' = Some t' →
       exec_id t = exec_id t' → k = k')
  ∧ (∀ k t l results line rest readyAt,
       tasks w !! k = Some t → pc t = Paying l results line rest readyAt →
       ∃ st, heap w !! l = Some st ∧ status st = processing
             ∧ id (invoice st) = id (t_invoice t)).

(** Every id in the store has its execution, keyed ["invoice-" + id]. *)
Definition executions_ok (w : World) : Prop :=
  ∀ iid l, approvals w !! iid = Some l →
    ∃ k t, tasks w !! k = Some t ∧ exec_id t = "invoice-" +:+ iid.

(** The callbacks waiting on an execution all captured the id of its
    invoice, and an execution that has not returned has one waiting. *)
Definition callbacks_ok (w : World) : Prop :=
  ∀ k t, tasks w !! k = Some t →
    Forall (λ iid, iid = id (t_invoice t)) (callbacks t)
    ∧ ((∀ r, pc t ≠ Returned r) → callbacks t ≠ []).

(** Every execution belongs to an id that is in the store. *)
Definition tasks_known (w : World) : Prop :=
  ∀ k t, tasks w !! k = Some t → is_Some (approvals w !! id (t_invoice t)).

(** Every stored invoice carries the sum of its lines as its total. *)
Definition totals_ok (w : World) : Prop :=
  ∀ l st, heap w !! l = Some st →
    totalAmount (invoice st) = sum_amounts (lines (invoice st)).

End Model.

(** ** A concrete session

    The invoice of the end-to-end scenario: consulting 100, expenses 50. *)

Definition consulting : InvoiceLine (num := Z) :=
  {| item := "consulting"; amount := 100%Z; description := "May retainer" |}.

Definition expenses : InvoiceLine (num := Z) :=
  {| item := "expenses"; amount := 50%Z; description := "Travel" |}.

Definition inv1 : Args (num := Z) :=
  {| invoice_id := "INV-1"; args_lines := [consulting; expenses] |}.

Definition empty_invoice : Args (num := Z) :=
  {| invoice_id := "INV-0"; args_lines := [] |}.

(** The world a trace leads to from an empty server started at time 0. *)
Definition after (es : list (Event (num := Z))) : World (num := Z) :=
  default (init 0) (exec es (init 0)).

(** Submitted; the workflow has entered its poll loop. *)
Definition session_submitted : list (Event (num := Z)) :=
  [Call "submit_invoice" inv1; Run 0].

(** Submitted, then approved by the user. *)
Definition session_approved : list (Event (num := Z)) :=
  session_submitted ++ [Call "approve_invoice" inv1].

(** Submitted, then rejected by the user. *)
Definition session_rejected : list (Event (num := Z)) :=
  session_submitted ++ [Call "reject_invoice" inv1].

(** Submitted, and five minutes pass without a decision. *)
Definition session_expired : list (Event (num := Z)) :=
  session_submitted ++ [Tick timeout].

(** Submitted, rejected, and the workflow is due for its next poll. *)
Definition session_rejected_due : list (Event (num := Z)) :=
  session_rejected ++ [Tick pollInterval].

(** Submitted, approved, and the workflow is due for its next poll. *)
Definition session_approved_due : list (Event (num := Z)) :=
  session_approved ++ [Tick pollInterval].

(** Five minutes without a decision, then the workflow wakes up. *)
Definition session_timed_out : list (Event (num := Z)) :=
  session_expired ++ [Run 0].

(** The invoice that [submit_invoice] builds from [inv1]. *)
Definition inv1_invoice : Invoice (num := Z) :=
  {| id := "INV-1"; lines := [consulting; expenses]; totalAmount := 150%Z |}.

(** Its workflow while it sleeps in the poll loop, started at time 0. *)
Definition inv1_polling : Task (num := Z) :=
  {| exec_id := "invoice-INV-1"; t_invoice := inv1_invoice;
     pc := Sleeping 0 1000; callbacks := ["INV-1"] |}.

Definition inv1_state (s : Status) (r : option string) : ApprovalState (num := Z) :=
  {| status := s; invoice := inv1_invoice; result := r |}.

(** The status a status query finds under [iid] after a trace. *)
Definition status_after (es : list (Event (num := Z))) (iid : string)
    : option (option Status) :=
  (λ w, stored_status w iid) <$> exec es (init 0).

(** Approved, polled, both payments made, the result stored. *)
Definition session_completed : list (Event (num := Z)) :=
  session_approved
  ++ [Tick pollInterval; Run 0; Tick paymentDelay; Run 0; Tick paymentDelay; Run 0; Run 0].

(** * Proofs *)

Section Proofs.
Context {num : Type} {number : JsNumber num}.
Implicit Types (w : World (num := num)) (t : Task (num := num)).
Implicit Types (st : ApprovalState (num := num)) (inv : Invoice (num := num)).
Implicit Types (args : Args (num := num)) (ev : Event (num := num)).
Implicit Types (iid r : string) (k l : nat) (s : Status).

(** ** The store *)

Lemma approvals_get_Some w iid l st :
  approvals_get w iid = Some (l, st)
  ↔ approvals w !! iid = Some l ∧ heap w !! l = Some st.
Proof.
  unfold approvals_get.
  destruct (approvals w !! iid) as [l'|]; simpl.
  - destruct (heap w !! l') as [st'|] eqn:Hh; simpl.
    + split; [intros [= -> ->]; done | intros [[= ->] ?]; congruence].
    + split; [done | intros [[= ->] ?]; congruence].
  - split; [done | intros [? _]; done].
Qed.


Lemma approvals_get_write_status w iid l s :
  approvals_get (write_status l s w) iid
  = (λ p, (fst p, if decide (l = fst p) then with_status s (snd p) else snd p))
      <$> approvals_get w iid.
Proof.
  unfold approvals_get, write_status. simpl.
  destruct (approvals w !! iid) as [l'|]; simpl; [|done].
  destruct (decide (l = l')) as [->|Hne].
  - rewrite list_lookup_alter_eq.
    destruct (heap w !! l'); simpl; [|done]. by rewrite decide_True.
  - rewrite list_lookup_alter_ne by done.
    destruct (heap w !! l'); simpl; [|done]. by rewrite decide_False.
Qed.

Lemma approvals_get_write_result w iid l r :
  approvals_get (write_result l r w) iid
  = (λ p, (fst p, if decide (l = fst p) then with_result r (snd p) else snd p))
      <$> approvals_get w iid.
Proof.
  unfold approvals_get, write_result. simpl.
  destruct (approvals w !! iid) as [l'|]; simpl; [|done].
  destruct (decide (l = l')) as [->|Hne].
  - rewrite list_lookup_alter_eq.
    destruct (heap w !! l'); simpl; [|done]. by rewrite decide_True.
  - rewrite list_lookup_alter_ne by done.
    destruct (heap w !! l'); simpl; [|done]. by rewrite decide_False.
Qed.

Lemma approvals_get_write_status_eq w iid l st s :
  approvals_get w iid = Some (l, st) →
  approvals_get (write_status l s w) iid = Some (l, with_status s st).
Proof.
  intros Hg. rewrite approvals_get_write_status, Hg. simpl. by rewrite decide_True.
Qed.

Lemma approvals_get_write_result_eq w iid l st r :
  approvals_get w iid = Some (l, st) →
  approvals_get (write_result l r w) iid = Some (l, with_result r st).
Proof.
  intros Hg. rewrite approvals_get_write_result, Hg. simpl. by rewrite decide_True.
Qed.

Lemma approvals_get_set_tasks w ts iid :
  approvals_get (set_tasks ts w) iid = approvals_get w iid.
Proof. reflexivity. Qed.

Lemma approvals_get_set_pc w k p iid :
  approvals_get (set_pc k p w) iid = approvals_get w iid.
Proof. reflexivity. Qed.

Lemma tasks_set_pc w k p t :
  tasks w !! k = Some t →
  tasks (set_pc k p w) !! k = Some (with_pc p t).
Proof.
  intros Ht. unfold set_pc. simpl. by rewrite list_lookup_alter_eq, Ht.
Qed.


Lemma stored_status_write_status_eq w iid l st s :
  approvals_get w iid = Some (l, st) →
  stored_status (write_status l s w) iid = Some s.
Proof.
  intros Hg. unfold stored_status.
  by erewrite approvals_get_write_status_eq.
Qed.

Lemma stored_status_write_result w iid l r :
  stored_status (write_result l r w) iid = stored_status w iid.
Proof.
  unfold stored_status. rewrite approvals_get_write_result.
  destruct (approvals_get w iid) as [[l' st]|]; simpl; [|done].
  by case_decide.
Qed.

Lemma stored_status_set_pc w k p iid :
  stored_status (set_pc k p w) iid = stored_status w iid.
Proof. reflexivity. Qed.

(** ** The handlers *)

Lemma decision_throws name args w :
  name = "approve_invoice" ∨ name = "reject_invoice" →
  stored_status w (invoice_id args) ≠ Some pending →
  call_tool name args w
  = (w, Throw match approvals_get w (invoice_id args) with
              | None => "Invoice " +:+ invoice_id args +:+ " not found"
              | Some (_, st) =>
                  "Invoice " +:+ invoice_id args +:+ " is not pending (status: "
                  +:+ status_text (status st) +:+ ")"
              end).
Proof.
  intros Hname Hst. unfold stored_status in Hst.
  assert (Hd : ∀ s' ack, decide_invoice s' ack args w
    = (w, Throw match approvals_get w (invoice_id args) with
                | None => "Invoice " +:+ invoice_id args +:+ " not found"
                | Some (_, st) =>
                    "Invoice " +:+ invoice_id args +:+ " is not pending (status: "
                    +:+ status_text (status st) +:+ ")"
                end)).
  { intros s' ack. unfold decide_invoice.
    destruct (approvals_get w (invoice_id args)) as [[l st]|]; [|done].
    simpl in Hst. destruct (status st); done. }
  destruct Hname as [-> | ->]; unfold call_tool; simpl;
    unfold approve_invoice, reject_invoice; apply Hd.
Qed.

Lemma check_report args w :
  call_tool "check_invoice_status" args w
  = (w, match approvals_get w (invoice_id args) with
        | None => Throw ("Invoice " +:+ invoice_id args +:+ " not found")
        | Some (_, st) => Ok (status_report (invoice_id args) st)
        end).
Proof.
  unfold call_tool. simpl. unfold check_invoice_status.
  by destruct (approvals_get w (invoice_id args)) as [[l st]|].
Qed.

(** C3.  [approve_invoice] and [reject_invoice] on an id whose stored status
    is not ['pending'] throw and change nothing: the message is
    [Invoice <id> not found] when [approvals.get] yields nothing, and
    [Invoice <id> is not pending (status: <status>)] otherwise, so the stored
    status stays what it was. *)
Theorem illegal_decision_rejected name args w :
  name = "approve_invoice" ∨ name = "reject_invoice" →
  stored_status w (invoice_id args) ≠ Some pending →
  call_tool name args w
  = (w, Throw match approvals_get w (invoice_id args) with
              | None => "Invoice " +:+ invoice_id args +:+ " not found"
              | Some (_, st) =>
                  "Invoice " +:+ invoice_id args +:+ " is not pending (status: "
                  +:+ status_text (status st) +:+ ")"
              end).
Proof. apply decision_throws. Qed.

(** ** One block of the workflow *)

Lemma run_sleeping w k t startTime wakeAt :
  tasks w !! k = Some t → pc t = Sleeping startTime wakeAt →
  (wakeAt ≤ now w)%Z →
  run_task k w = Some (poll_loop k (t_invoice t) startTime w).
Proof.
  intros Ht Hpc Hwake. unfold run_task. rewrite Ht. simpl. rewrite Hpc.
  destruct (Z.leb_spec wakeAt (now w)); [done | lia].
Qed.

Lemma poll_loop_expired w k inv startTime :
  (timeout ≤ now w - startTime)%Z →
  poll_loop k inv startTime w = after_gate k inv w.
Proof.
  intros Hlate. unfold poll_loop.
  destruct (Z.ltb_spec (now w - startTime) timeout); [lia | done].
Qed.

Lemma poll_loop_live w k inv startTime :
  (now w - startTime < timeout)%Z →
  poll_loop k inv startTime w
  = match status ∘ snd <$> approvals_get w (id inv) with
    | Some approved => after_gate k inv w
    | Some rejected => set_pc k (Returned "REJECTED by user") w
    | _ => set_pc k (Sleeping startTime (now w + pollInterval)) w
    end.
Proof.
  intros Hlive. unfold poll_loop.
  destruct (Z.ltb_spec (now w - startTime) timeout); [done | lia].
Qed.

Lemma after_gate_pending w k inv l st :
  approvals_get w (id inv) = Some (l, st) → status st = pending →
  after_gate k inv w
  = set_pc k (Returned "REJECTED due to timeout") (write_status l rejected w).
Proof. intros Hg Hs. unfold after_gate. by rewrite Hg, Hs. Qed.

Lemma after_gate_approved w k inv l st :
  approvals_get w (id inv) = Some (l, st) → status st = approved →
  after_gate k inv w = pay_loop k l [] (lines inv) (write_status l processing w).
Proof. intros Hg Hs. unfold after_gate. by rewrite Hg, Hs. Qed.

Lemma run_callback w k t r iid cbs :
  tasks w !! k = Some t → pc t = Returned r → callbacks t = iid :: cbs →
  run_task k w
  = Some (store_result iid r
            (set_tasks (alter (with_callbacks cbs) k (tasks w)) w)).
Proof.
  intros Ht Hpc Hcb. unfold run_task. rewrite Ht. simpl. by rewrite Hpc, Hcb.
Qed.

(** A task that returns [r] with the callback of its own invoice pending:
    the callback stores [r], and the status query shows it. *)
Lemma returned_then_reported w k t r cbs l st ls :
  tasks w !! k = Some t → pc t = Returned r →
  callbacks t = id (t_invoice t) :: cbs →
  approvals_get w (id (t_invoice t)) = Some (l, st) →
  r ≠ "" →
  ∃ w2,
    run_task k w = Some w2
    ∧ approvals_get w2 (id (t_invoice t)) = Some (l, with_result r st)
    ∧ payments w2 = payments w
    ∧ call_tool "check_invoice_status"
        {| invoice_id := id (t_invoice t); args_lines := ls |} w2
      = (w2, Ok ("Invoice " +:+ id (t_invoice t) +:+ ":" +:+ nl
                 +:+ "Status: " +:+ status_text (status st) +:+ nl
                 +:+ "Total Amount: $" +:+ num_show (totalAmount (invoice st)) +:+ nl
                 +:+ nl +:+ "Result:" +:+ nl +:+ r)).
Proof.
  intros Ht Hpc Hcb Hg Hr. destruct r as [|c r']; [done|]. clear Hr.
  eexists. split; [by eapply run_callback|].
  assert (Hg2 : approvals_get
    (store_result (id (t_invoice t)) (String c r')
       (set_tasks (alter (with_callbacks cbs) k (tasks w)) w)) (id (t_invoice t))
    = Some (l, with_result (String c r') st)).
  { unfold store_result. rewrite approvals_get_set_tasks, Hg.
    apply approvals_get_write_result_eq. by rewrite approvals_get_set_tasks. }
  split; [done|]. split.
  { unfold store_result. by rewrite approvals_get_set_tasks, Hg. }
  rewrite check_report. simpl invoice_id. by rewrite Hg2.
Qed.


(** The block that times out, and the callback after it. *)
Lemma timeout_block w k t startTime wakeAt cbs l st ls :
  tasks w !! k = Some t →
  pc t = Sleeping startTime wakeAt →
  callbacks t = id (t_invoice t) :: cbs →
  approvals_get w (id (t_invoice t)) = Some (l, st) →
  status st = pending →
  (wakeAt ≤ now w)%Z →
  (timeout ≤ now w - startTime)%Z →
  ∃ w1 w2,
    run_task k w = Some w1
    ∧ stored_status w1 (id (t_invoice t)) = Some rejected
    ∧ run_task k w1 = Some w2
    ∧ stored_status w2 (id (t_invoice t)) = Some rejected
    ∧ payments w2 = payments w
    ∧ call_tool "check_invoice_status"
        {| invoice_id := id (t_invoice t); args_lines := ls |} w2
      = (w2, Ok ("Invoice " +:+ id (t_invoice t) +:+ ":" +:+ nl
                 +:+ "Status: rejected" +:+ nl
                 +:+ "Total Amount: $" +:+ num_show (totalAmount (invoice st)) +:+ nl
                 +:+ nl +:+ "Result:" +:+ nl +:+ "REJECTED due to timeout")).
Proof.
  intros Ht Hpc Hcb Hg Hs Hwake Hlate.
  pose (w1 := set_pc k (Returned "REJECTED due to timeout") (write_status l rejected w)).
  assert (Hrun : run_task k w = Some w1).
  { erewrite run_sleeping by done. rewrite poll_loop_expired by done.
    by erewrite after_gate_pending. }
  assert (Hg1 : approvals_get w1 (id (t_invoice t)) = Some (l, with_status rejected st)).
  { unfold w1. rewrite approvals_get_set_pc. by apply approvals_get_write_status_eq. }
  destruct (returned_then_reported w1 k
              (with_pc (Returned "REJECTED due to timeout") t)
              "REJECTED due to timeout" cbs l (with_status rejected st) ls)
    as (w2 & Hrun2 & Hg2 & Hpay & Hcheck); try done.
  { unfold w1. by apply tasks_set_pc. }
  exists w1, w2. split; [done|]. split.
  { unfold stored_status. by rewrite Hg1. }
  split; [done|]. split.
  { unfold stored_status. simpl in Hg2. by rewrite Hg2. }
  split; [by rewrite Hpay|]. exact Hcheck.
Qed.

(** The two rejecting blocks, and the callback after them. *)
Lemma rejection_blocks w k t startTime wakeAt cbs l st ls :
  tasks w !! k = Some t →
  pc t = Sleeping startTime wakeAt →
  callbacks t = id (t_invoice t) :: cbs →
  approvals_get w (id (t_invoice t)) = Some (l, st) →
  (wakeAt ≤ now w)%Z →
  (status st = rejected ∧ now w - startTime < timeout)%Z
  ∨ (status st = pending ∧ timeout ≤ now w - startTime)%Z →
  let reason := if decide (status st = rejected) then "REJECTED by user"
                else "REJECTED due to timeout" in
  ∃ w1 w2 t1,
    run_task k w = Some w1
    ∧ tasks w1 !! k = Some t1 ∧ pc t1 = Returned reason
    ∧ run_task k w1 = Some w2
    ∧ approvals_get w2 (id (t_invoice t))
      = Some (l, {| status := rejected; invoice := invoice st; result := Some reason |})
    ∧ call_tool "check_invoice_status"
        {| invoice_id := id (t_invoice t); args_lines := ls |} w2
      = (w2, Ok ("Invoice " +:+ id (t_invoice t) +:+ ":" +:+ nl
                 +:+ "Status: rejected" +:+ nl
                 +:+ "Total Amount: $" +:+ num_show (totalAmount (invoice st)) +:+ nl
                 +:+ nl +:+ "Result:" +:+ nl +:+ reason))
    ∧ "REJECTED by user" ≠ "REJECTED due to timeout".
Proof.
  intros Ht Hpc Hcb Hg Hwake Hcase reason.
  pose (st1 := with_status rejected st).
  assert (∃ w1, run_task k w = Some w1
                ∧ w1 = set_pc k (Returned reason) (set_heap (heap w1) w)
                ∧ approvals_get w1 (id (t_invoice t)) = Some (l, st1))
    as (w1 & Hrun & Hw1 & Hg1).
  { destruct Hcase as [[Hs Hlive] | [Hs Hlate]].
    - exists (set_pc k (Returned reason) w). split; [|split].
      + erewrite run_sleeping by done. rewrite poll_loop_live by done.
        rewrite Hg. simpl. rewrite Hs. unfold reason. by rewrite decide_True.
      + by destruct w.
      + rewrite approvals_get_set_pc, Hg. unfold st1, with_status.
        destruct st as [s0 i0 r0]. simpl in *. by subst.
    - exists (set_pc k (Returned reason) (write_status l rejected w)). split; [|split].
      + erewrite run_sleeping by done. rewrite poll_loop_expired by done.
        erewrite after_gate_pending by done. unfold reason.
        rewrite decide_False; [done | by rewrite Hs].
      + done.
      + rewrite approvals_get_set_pc. by apply approvals_get_write_status_eq. }
  assert (Ht1 : tasks w1 !! k = Some (with_pc (Returned reason) t)).
  { rewrite Hw1. by apply tasks_set_pc. }
  assert (Hne : reason ≠ "") by (unfold reason; by case_decide).
  destruct (returned_then_reported w1 k _ reason cbs l st1 ls Ht1)
    as (w2 & Hrun2 & Hg2 & _ & Hcheck); try done.
  exists w1, w2. eexists. split; [done|]. split; [exact Ht1|]. split; [done|].
  split; [done|]. split; [exact Hg2|]. split; [exact Hcheck | done].
Qed.

(** ** Reachable worlds *)

Lemma exec_snoc es e w :
  exec (es ++ [e]) w = w' ← exec es w; step e w'.
Proof.
  revert w. induction es as [|e' es IH]; intros w; simpl.
  - by destruct (step e w).
  - destruct (step e' w) as [w1|]; simpl; [apply IH | done].
Qed.


(** Induction along executions: a property of the empty server that every
    event preserves holds of every reachable world. *)
Lemma reachable_invariant (P : World (num := num) → Prop) :
  (∀ z0, P (init z0)) →
  (∀ e w w', reachable w → P w → step e w = Some w' → P w') →
  ∀ w, reachable w → P w.
Proof.
  intros Hinit Hstep w (z0 & es & Hes). revert w Hes.
  induction es as [|e es IH] using rev_ind; intros w Hes.
  - injection Hes as <-. apply Hinit.
  - rewrite exec_snoc in Hes.
    destruct (exec es (init z0)) as [w0|] eqn:H0; [|done]. simpl in Hes.
    eapply Hstep; [| by apply IH | exact Hes]. by exists z0, es.
Qed.

(** ** Totals *)

Lemma sum_amounts_fold (ls : list (InvoiceLine (num := num))) (a : num) :
  fold_left (λ sum line, num_add sum (amount line)) ls a
  = fold_left num_add (amount <$> ls) a.
Proof. revert a. induction ls as [|x ls IH]; intros a; simpl; [done | apply IH]. Qed.

Lemma totals_ok_alter w (f : ApprovalState (num := num) → ApprovalState) l :
  (∀ st, invoice (f st) = invoice st) →
  totals_ok w → totals_ok (set_heap (alter f l (heap w)) w).
Proof.
  intros Hf Hok l' st'. simpl. destruct (decide (l = l')) as [<-|Hne].
  - rewrite list_lookup_alter_eq. destruct (heap w !! l) as [st|] eqn:Hl; [|done].
    intros [= <-]. rewrite Hf. by apply (Hok l).
  - rewrite list_lookup_alter_ne by done. apply Hok.
Qed.

Lemma totals_ok_write_status w l s : totals_ok w → totals_ok (write_status l s w).
Proof. by apply totals_ok_alter. Qed.

Lemma totals_ok_write_result w l r : totals_ok w → totals_ok (write_result l r w).
Proof. by apply totals_ok_alter. Qed.

Lemma totals_ok_heap w w' : heap w' = heap w → totals_ok w → totals_ok w'.
Proof. unfold totals_ok. by intros ->. Qed.

Lemma totals_ok_finish w k l results : totals_ok w → totals_ok (finish k l results w).
Proof.
  intros Hok. unfold finish.
  eapply totals_ok_heap; [|apply totals_ok_write_result, totals_ok_write_status, Hok].
  done.
Qed.

Lemma totals_ok_pay_loop w k l results remaining :
  totals_ok w → totals_ok (pay_loop k l results remaining w).
Proof.
  intros Hok. unfold pay_loop. destruct remaining; [by apply totals_ok_finish|].
  by eapply totals_ok_heap.
Qed.

Lemma totals_ok_after_gate w k inv : totals_ok w → totals_ok (after_gate k inv w).
Proof.
  intros Hok. unfold after_gate.
  destruct (approvals_get w (id inv)) as [[l st]|]; [|by eapply totals_ok_heap].
  destruct (status st); try by eapply totals_ok_heap.
  - eapply totals_ok_heap; [|by apply (totals_ok_write_status w l rejected)]. done.
  - by apply totals_ok_pay_loop, totals_ok_write_status.
Qed.

Lemma totals_ok_poll_loop w k inv startTime :
  totals_ok w → totals_ok (poll_loop k inv startTime w).
Proof.
  intros Hok. unfold poll_loop.
  destruct (_ <? _)%Z; [|by apply totals_ok_after_gate].
  destruct (status ∘ snd <$> approvals_get w (id inv)) as [[]|];
    first [by apply totals_ok_after_gate | by eapply totals_ok_heap].
Qed.

Lemma totals_ok_run_task w k w' : totals_ok w → run_task k w = Some w' → totals_ok w'.
Proof.
  intros Hok. unfold run_task. destruct (tasks w !! k) as [t|]; [|done]. simpl.
  destruct (pc t) as [|s u|l results line rest u|r].
  - intros [= <-]. unfold start. apply totals_ok_poll_loop.
    destruct (approvals_get w (id (t_invoice t))) as [[l st]|]; [|done].
    by apply totals_ok_write_status.
  - destruct (_ <=? _)%Z; [|done]. intros [= <-]. by apply totals_ok_poll_loop.
  - destruct (_ <=? _)%Z; [|done]. intros [= <-]. by apply totals_ok_pay_loop.
  - destruct (callbacks t) as [|iid cbs]; [done|]. intros [= <-].
    unfold store_result. rewrite approvals_get_set_tasks.
    destruct (approvals_get w iid) as [[l st]|]; [|by eapply totals_ok_heap].
    apply totals_ok_write_result. by eapply totals_ok_heap.
Qed.

Lemma heap_durableProcessInvoice w eid inv :
  heap (snd (durableProcessInvoice eid inv w)) = heap w
  ∧ approvals (snd (durableProcessInvoice eid inv w)) = approvals w
  ∧ payments (snd (durableProcessInvoice eid inv w)) = payments w
  ∧ now (snd (durableProcessInvoice eid inv w)) = now w.
Proof. unfold durableProcessInvoice. by destruct (find_execution eid (tasks w)). Qed.

(** What [submit_invoice] does to the store: a fresh ['pending'] object for
    the submitted invoice is appended and the key points to it. *)
Lemma submit_invoice_store args w :
  let inv := {| id := invoice_id args; lines := args_lines args;
                totalAmount := sum_amounts (args_lines args) |} in
  let w' := fst (submit_invoice args w) in
  heap w' = heap w ++ [{| status := pending; invoice := inv; result := None |}]
  ∧ approvals w' = <[invoice_id args := length (heap w)]> (approvals w)
  ∧ payments w' = payments w
  ∧ now w' = now w.
Proof.
  unfold submit_invoice. rewrite sum_amounts_fold. fold (sum_amounts (args_lines args)).
  set (inv := {| id := invoice_id args; lines := args_lines args;
                 totalAmount := sum_amounts (args_lines args) |}).
  set (w1 := approvals_set _ _ w).
  destruct (heap_durableProcessInvoice w1 ("invoice-" +:+ invoice_id args) inv)
    as (Hh & Ha & Hp & Hn).
  destruct (durableProcessInvoice _ inv w1) as [k w2]. simpl in *.
  by rewrite Hh, Ha, Hp, Hn.
Qed.

Lemma totals_ok_call name args w : totals_ok w → totals_ok (fst (call_tool name args w)).
Proof.
  intros Hok. unfold call_tool.
  destruct (String.eqb name "submit_invoice").
  { destruct (submit_invoice_store args w) as (Hh & _).
    intros l st. rewrite Hh. intros Hl.
    destruct (decide (l < length (heap w))) as [Hlt|Hge].
    - rewrite lookup_app_l in Hl by done. by apply (Hok l).
    - rewrite lookup_app_r in Hl by lia.
      destruct (l - length (heap w)) as [|n]; [|by destruct n].
      by injection Hl as <-. }
  destruct (String.eqb name "approve_invoice").
  { unfold approve_invoice. unfold decide_invoice.
    destruct (approvals_get w (invoice_id args)) as [[l st]|]; [|done].
    destruct (status st); simpl; try done. by apply totals_ok_write_status. }
  destruct (String.eqb name "reject_invoice").
  { unfold reject_invoice. unfold decide_invoice.
    destruct (approvals_get w (invoice_id args)) as [[l st]|]; [|done].
    destruct (status st); simpl; try done. by apply totals_ok_write_status. }
  destruct (String.eqb name "check_invoice_status"); [|done].
  unfold check_invoice_status. by destruct (approvals_get w (invoice_id args)) as [[l st]|].
Qed.

Lemma totals_ok_reachable w : reachable w → totals_ok w.
Proof.
  apply reachable_invariant.
  - intros z0 l st. simpl. by destruct l.
  - intros e w0 w' _ Hok Hstep. destruct e as [name args|d|k]; simpl in Hstep.
    + injection Hstep as <-. by apply totals_ok_call.
    + destruct (0 <=? d)%Z; [|done]. injection Hstep as <-. by eapply totals_ok_heap.
    + by eapply totals_ok_run_task.
Qed.

(** C8.  The total of a submitted invoice is the sum of the amounts of its
    lines, added in line order starting from 0: that sum is printed in the
    acknowledgement of [submit_invoice] and recorded in the stored invoice,
    and every stored invoice of a reachable world carries the sum of its own
    lines, which is what [check_invoice_status] prints as its total. *)
Theorem total_amount_is_sum w args :
  reachable w →
  (∃ w' l st,
     call_tool "submit_invoice" args w
     = (w', Ok ("Invoice " +:+ invoice_id args +:+ " submitted for approval. Total: $"
                +:+ num_show (sum_amounts (args_lines args)) +:+ nl
                +:+ "Use approve_invoice or reject_invoice to respond."))
     ∧ approvals_get w' (invoice_id args) = Some (l, st)
     ∧ status st = pending
     ∧ lines (invoice st) = args_lines args
     ∧ totalAmount (invoice st) = sum_amounts (args_lines args))
  ∧ match approvals_get w (invoice_id args) with
    | None => True
    | Some (_, st) =>
        totalAmount (invoice st) = sum_amounts (lines (invoice st))
        ∧ call_tool "check_invoice_status" args w
          = (w, Ok ("Invoice " +:+ invoice_id args +:+ ":" +:+ nl
                    +:+ "Status: " +:+ status_text (status st) +:+ nl
                    +:+ "Total Amount: $"
                    +:+ num_show (sum_amounts (lines (invoice st))) +:+ nl
                    +:+ result_section st))
    end.
Proof.
  intros Hreach. split.
  - destruct (submit_invoice_store args w) as (Hh & Ha & _).
    exists (fst (submit_invoice args w)), (length (heap w)).
    eexists. split; [|split; [|split; [|split]]].
    + unfold call_tool. simpl. unfold submit_invoice.
      rewrite sum_amounts_fold. fold (sum_amounts (args_lines args)).
      by destruct (durableProcessInvoice _ _ _).
    + apply approvals_get_Some. rewrite Ha, Hh. split.
      * apply lookup_insert_eq.
      * rewrite lookup_app_r by lia. by rewrite Nat.sub_diag.
    + done.
    + done.
    + done.
  - destruct (approvals_get w (invoice_id args)) as [[l st]|] eqn:Hg; [|done].
    pose proof Hg as Hg'. apply approvals_get_Some in Hg' as [_ Hl].
    pose proof (totals_ok_reachable w Hreach l st Hl) as Htot. split; [done|].
    rewrite check_report, Hg. unfold status_report. by rewrite Htot.
Qed.

(** ** What a block does outside the heap *)

Lemma alter_as_insert (ts : list (Task (num := num))) k f t :
  ts !! k = Some t → alter f k ts = <[k := f t]> ts.
Proof.
  intros Ht. apply list_eq. intros j. destruct (decide (k = j)) as [<-|Hne].
  - rewrite list_lookup_alter_eq, Ht. simpl.
    symmetry. apply list_lookup_insert_eq. by eapply lookup_lt_Some.
  - by rewrite list_lookup_alter_ne, list_lookup_insert_ne.
Qed.

(** The part of the world a block of task [k] may touch besides the heap:
    its own program counter, and the payment log. *)
Lemma pay_loop_frame w k t l results remaining :
  tasks w !! k = Some t →
  tasks (pay_loop k l results remaining w)
  = <[k := with_pc (pay_pc l results remaining (now w + paymentDelay)) t]> (tasks w)
  ∧ payments (pay_loop k l results remaining w)
    = payments w ++ (pair k <$> take 1 remaining)
  ∧ approvals (pay_loop k l results remaining w) = approvals w
  ∧ now (pay_loop k l results remaining w) = now w
  ∧ length (heap (pay_loop k l results remaining w)) = length (heap w).
Proof.
  intros Ht. unfold pay_loop, finish, set_pc.
  destruct remaining as [|line rest]; simpl.
  - rewrite app_nil_r, !length_alter. by erewrite alter_as_insert.
  - by erewrite alter_as_insert.
Qed.

Lemma after_gate_frame w k t :
  tasks w !! k = Some t →
  ∃ p extra,
    tasks (after_gate k (t_invoice t) w) = <[k := with_pc p t]> (tasks w)
    ∧ payments (after_gate k (t_invoice t) w) = payments w ++ (pair k <$> extra)
    ∧ approvals (after_gate k (t_invoice t) w) = approvals w
    ∧ now (after_gate k (t_invoice t) w) = now w
    ∧ length (heap (after_gate k (t_invoice t) w)) = length (heap w)
    ∧ ∀ p0, before_gate p0 → advances (t_invoice t) p0 p extra.
Proof.
  intros Ht. unfold after_gate.
  assert (Hrej : ∀ r h, is_rejection r →
    ∃ p extra,
      tasks (set_pc k (Returned r) (set_heap h w)) = <[k := with_pc p t]> (tasks w)
      ∧ payments (set_pc k (Returned r) (set_heap h w)) = payments w ++ (pair k <$> extra)
      ∧ approvals (set_pc k (Returned r) (set_heap h w)) = approvals w
      ∧ now (set_pc k (Returned r) (set_heap h w)) = now w
      ∧ length h = length h
      ∧ ∀ p0, before_gate p0 → advances (t_invoice t) p0 p extra).
  { intros r h Hr. exists (Returned r), []. simpl. rewrite app_nil_r.
    erewrite alter_as_insert by done. repeat split. intros p0 Hp0.
    by apply adv_reject. }
  destruct (approvals_get w (id (t_invoice t))) as [[l st]|].
  - destruct (status st).
    + destruct (Hrej "REJECTED due to timeout" (alter (with_status rejected) l (heap w)))
        as (p & extra & H1 & H2 & H3 & H4 & _ & H6); [unfold is_rejection; auto|].
      exists p, extra. repeat split; try done. simpl. by rewrite length_alter.
    + destruct (pay_loop_frame (write_status l processing w) k t l []
                  (lines (t_invoice t)) Ht) as (H1 & H2 & H3 & H4 & H5).
      exists (pay_pc l [] (lines (t_invoice t))
                (now (write_status l processing w) + paymentDelay)),
             (take 1 (lines (t_invoice t))).
      repeat split; try done.
      * rewrite H5. simpl. by rewrite length_alter.
      * intros p0 Hp0. by apply adv_gate.
    + destruct (Hrej "REJECTED" (heap w))
        as (p & extra & H1 & H2 & H3 & H4 & _ & H6); [unfold is_rejection; auto|].
      exists p, extra. by repeat split.
    + destruct (Hrej "REJECTED" (heap w))
        as (p & extra & H1 & H2 & H3 & H4 & _ & H6); [unfold is_rejection; auto|].
      exists p, extra. by repeat split.
    + destruct (Hrej "REJECTED" (heap w))
        as (p & extra & H1 & H2 & H3 & H4 & _ & H6); [unfold is_rejection; auto|].
      exists p, extra. by repeat split.
  - destruct (Hrej "REJECTED" (heap w))
      as (p & extra & H1 & H2 & H3 & H4 & _ & H6); [unfold is_rejection; auto|].
    exists p, extra. by repeat split.
Qed.

Lemma poll_loop_frame w k t startTime :
  tasks w !! k = Some t →
  ∃ p extra,
    tasks (poll_loop k (t_invoice t) startTime w) = <[k := with_pc p t]> (tasks w)
    ∧ payments (poll_loop k (t_invoice t) startTime w) = payments w ++ (pair k <$> extra)
    ∧ approvals (poll_loop k (t_invoice t) startTime w) = approvals w
    ∧ now (poll_loop k (t_invoice t) startTime w) = now w
    ∧ length (heap (poll_loop k (t_invoice t) startTime w)) = length (heap w)
    ∧ ∀ p0, before_gate p0 → advances (t_invoice t) p0 p extra.
Proof.
  intros Ht. unfold poll_loop.
  assert (Hset : ∀ p, (∀ p0, before_gate p0 → advances (t_invoice t) p0 p []) →
    ∃ p' extra,
      tasks (set_pc k p w) = <[k := with_pc p' t]> (tasks w)
      ∧ payments (set_pc k p w) = payments w ++ (pair k <$> extra)
      ∧ approvals (set_pc k p w) = approvals w
      ∧ now (set_pc k p w) = now w
      ∧ length (heap (set_pc k p w)) = length (heap w)
      ∧ ∀ p0, before_gate p0 → advances (t_invoice t) p0 p' extra).
  { intros p Hp. exists p, []. simpl. rewrite app_nil_r.
    erewrite alter_as_insert by done. by repeat split. }
  destruct (_ <? _)%Z; [|by apply after_gate_frame].
  destruct (status ∘ snd <$> approvals_get w (id (t_invoice t))) as [[]|];
    first [by apply after_gate_frame
          | apply Hset; intros p0 Hp0; by apply adv_sleep
          | apply Hset; intros p0 Hp0; apply adv_reject; [done|unfold is_rejection; auto]].
Qed.

Lemma run_task_frame w k t w' :
  tasks w !! k = Some t → run_task k w = Some w' →
  ∃ t' extra,
    tasks w' = <[k := t']> (tasks w)
    ∧ t_invoice t' = t_invoice t
    ∧ exec_id t' = exec_id t
    ∧ advances (t_invoice t) (pc t) (pc t') extra
    ∧ payments w' = payments w ++ (pair k <$> extra)
    ∧ approvals w' = approvals w
    ∧ now w' = now w
    ∧ length (heap w') = length (heap w)
    ∧ (callbacks t' = callbacks t
       ∨ ∃ r iid, pc t = Returned r ∧ callbacks t = iid :: callbacks t').
Proof.
  intros Ht. unfold run_task. rewrite Ht. simpl.
  destruct (pc t) as [|s u|l results line rest u|r] eqn:Hpc.
  - intros [= <-]. unfold start.
    set (w1 := match approvals_get w (id (t_invoice t)) with
               | Some (l, _) => write_status l pending w
               | None => w
               end).
    assert (Hw1 : tasks w1 = tasks w ∧ payments w1 = payments w
                  ∧ approvals w1 = approvals w ∧ now w1 = now w
                  ∧ length (heap w1) = length (heap w)).
    { unfold w1. destruct (approvals_get w (id (t_invoice t))) as [[l st]|]; [|done].
      simpl. by rewrite length_alter. }
    destruct Hw1 as (T & P & A & N & L).
    destruct (poll_loop_frame w1 k t (now w1)) as (p & extra & H1 & H2 & H3 & H4 & H5 & H6).
    { by rewrite T. }
    exists (with_pc p t), extra. rewrite H1, H2, H3, H4, H5, T, P, A, N, L.
    repeat split; [by apply H6 | by left].
  - destruct (_ <=? _)%Z; [|done]. intros [= <-].
    destruct (poll_loop_frame w k t s Ht) as (p & extra & H1 & H2 & H3 & H4 & H5 & H6).
    exists (with_pc p t), extra. repeat split; try done; [by apply H6 | by left].
  - destruct (_ <=? _)%Z; [|done]. intros [= <-].
    destruct (pay_loop_frame w k t l (results ++ [processPayment line]) rest Ht)
      as (H1 & H2 & H3 & H4 & H5).
    exists (with_pc (pay_pc l (results ++ [processPayment line]) rest
                       (now w + paymentDelay)) t), (take 1 rest).
    repeat split; try done; [simpl; apply adv_pay | by left].
  - destruct (callbacks t) as [|iid cbs] eqn:Hcb; [done|]. intros [= <-].
    exists (with_callbacks cbs t), []. unfold store_result.
    rewrite approvals_get_set_tasks.
    destruct (approvals_get w iid) as [[l st]|]; simpl;
      rewrite ?length_alter, app_nil_r; erewrite alter_as_insert by done;
      (repeat split; [rewrite Hpc; apply adv_callback | right; by exists r, iid]).
Qed.

Lemma find_execution_Some (ts : list (Task (num := num))) eid k :
  find_execution eid ts = Some k → ∃ t, ts !! k = Some t ∧ exec_id t = eid.
Proof.
  revert k. induction ts as [|t ts IH]; intros k; simpl; [done|].
  destruct (String.eqb_spec (exec_id t) eid) as [Heq|Hne].
  - intros [= <-]. by exists t.
  - destruct (find_execution eid ts) as [k'|]; simpl; [|done].
    intros [= <-]. by apply IH.
Qed.

Lemma find_execution_None (ts : list (Task (num := num))) eid k t :
  find_execution eid ts = None → ts !! k = Some t → exec_id t ≠ eid.
Proof.
  revert k. induction ts as [|t' ts IH]; intros k; simpl; [done|].
  destruct (String.eqb_spec (exec_id t') eid) as [Heq|Hne]; [done|].
  destruct (find_execution eid ts) as [k'|]; simpl; [done|].
  intros _. destruct k as [|k]; simpl; [by intros [= <-] | by apply IH].
Qed.

(** The tasks after a tool call: every task that existed keeps its invoice,
    execution id and program counter; [submit_invoice] may add one task,
    not yet started, under an execution id that was free. *)
Lemma call_tool_tasks name args w :
  payments (fst (call_tool name args w)) = payments w
  ∧ now (fst (call_tool name args w)) = now w
  ∧ length (tasks w) ≤ length (tasks (fst (call_tool name args w)))
  ∧ ∀ k t', tasks (fst (call_tool name args w)) !! k = Some t' →
      (∃ t, tasks w !! k = Some t ∧ pc t' = pc t ∧ t_invoice t' = t_invoice t
            ∧ exec_id t' = exec_id t)
      ∨ (k = length (tasks w) ∧ pc t' = NotStarted
         ∧ name = "submit_invoice"
         ∧ id (t_invoice t') = invoice_id args
         ∧ exec_id t' = "invoice-" +:+ invoice_id args
         ∧ find_execution (exec_id t') (tasks w) = None).
Proof.
  assert (Hsame : ∀ w', payments w' = payments w → now w' = now w → tasks w' = tasks w →
    payments w' = payments w ∧ now w' = now w
    ∧ length (tasks w) ≤ length (tasks w')
    ∧ ∀ k t', tasks w' !! k = Some t' →
      (∃ t, tasks w !! k = Some t ∧ pc t' = pc t ∧ t_invoice t' = t_invoice t
            ∧ exec_id t' = exec_id t)
      ∨ (k = length (tasks w) ∧ pc t' = NotStarted
         ∧ name = "submit_invoice"
         ∧ id (t_invoice t') = invoice_id args
         ∧ exec_id t' = "invoice-" +:+ invoice_id args
         ∧ find_execution (exec_id t') (tasks w) = None)).
  { intros w' -> -> ->. repeat split; [lia|]. intros k t' Hk. left. by exists t'. }
  unfold call_tool.
  destruct (String.eqb_spec name "submit_invoice") as [->|_].
  { unfold submit_invoice, durableProcessInvoice. simpl.
    set (inv := {| id := invoice_id args; lines := args_lines args;
                   totalAmount := _ |}).
    destruct (find_execution ("invoice-" +:+ invoice_id args) (tasks w)) as [k0|] eqn:Hf;
      simpl.
    - rewrite length_alter. repeat split; [lia|]. intros k t'.
      destruct (decide (k0 = k)) as [<-|Hne].
      + rewrite list_lookup_alter_eq. destruct (tasks w !! k0) as [t|]; [|done].
        intros [= <-]. left. by exists t.
      + rewrite list_lookup_alter_ne by done. intros Hk. left. by exists t'.
    - rewrite length_alter, length_app. simpl. repeat split; [lia|]. intros k t'.
      destruct (decide (length (tasks w) = k)) as [<-|Hne].
      + rewrite list_lookup_alter_eq, lookup_app_r, Nat.sub_diag by lia. simpl.
        intros [= <-]. right. simpl. by rewrite Hf.
      + rewrite list_lookup_alter_ne by done. intros Hk. left.
        assert (k < length (tasks w)).
        { apply lookup_lt_Some in Hk. rewrite length_app in Hk. simpl in Hk. lia. }
        rewrite lookup_app_l in Hk by done. by exists t'. }
  destruct (String.eqb name "approve_invoice").
  { unfold approve_invoice, decide_invoice.
    destruct (approvals_get w (invoice_id args)) as [[l st]|]; [|by apply Hsame].
    destruct (status st); by apply Hsame. }
  destruct (String.eqb name "reject_invoice").
  { unfold reject_invoice, decide_invoice.
    destruct (approvals_get w (invoice_id args)) as [[l st]|]; [|by apply Hsame].
    destruct (status st); by apply Hsame. }
  destruct (String.eqb name "check_invoice_status"); [|by apply Hsame].
  unfold check_invoice_status.
  destruct (approvals_get w (invoice_id args)) as [[l st]|]; by apply Hsame.
Qed.

(** ** Payments *)

Lemma paid_eq w w' k : payments w' = payments w → paid w' k = paid w k.
Proof. unfold paid. by intros ->. Qed.

Lemma paid_app w w' k k' extra :
  payments w' = payments w ++ (pair k' <$> extra) →
  paid w' k = paid w k ++ (if decide (k' = k) then extra else []).
Proof.
  intros Hp. unfold paid. rewrite Hp, filter_app, fmap_app. f_equal. clear Hp.
  induction extra as [|x extra IH]; [by case_decide|].
  rewrite fmap_cons, filter_cons. simpl.
  destruct (decide (k' = k)) as [->|Hne]; [|done].
  rewrite fmap_cons. simpl. by rewrite IH.
Qed.

Lemma paid_unborn w k :
  Forall (λ e, fst e < length (tasks w)) (payments w) →
  length (tasks w) ≤ k → paid w k = [].
Proof.
  intros Hb Hk. unfold paid. induction Hb as [|e es He _ IH]; [done|].
  rewrite filter_cons_False; [done | lia].
Qed.

Lemma pc_paid_ok_advances inv p p' pd extra :
  advances inv p p' extra → pc_paid_ok inv p pd → pc_paid_ok inv p' (pd ++ extra).
Proof.
  intros Hadv Hok. destruct Hadv as [p s u Hp|p r Hp Hr|p l z Hp|l res line rest z z'|r].
  - destruct p; try done; simpl in *; by subst.
  - left. destruct p; try done; simpl in *; by subst.
  - assert (pd = []) as -> by (destruct p; try done; simpl in *; by subst).
    simpl. destruct (lines inv) as [|line rest] eqn:Hl; simpl.
    + right. by rewrite Hl.
    + exists []. by rewrite Hl.
  - destruct Hok as (dn & Hl & -> & ->).
    destruct rest as [|line' rest']; simpl.
    + right. rewrite Hl, fmap_app, app_nil_r. done.
    + exists (dn ++ [line]). by rewrite Hl, fmap_app, <- app_assoc.
  - by rewrite app_nil_r.
Qed.

Lemma payments_ok_step e w w' : payments_ok w → step e w = Some w' → payments_ok w'.
Proof.
  intros [Hts Hb] Hstep. destruct e as [name args|d|k]; simpl in Hstep.
  - injection Hstep as <-.
    destruct (call_tool_tasks name args w) as (Hp & _ & Hlen & Hk). split.
    + intros k t' Ht'. rewrite (paid_eq w _ k Hp).
      destruct (Hk k t' Ht') as [(t & Ht & -> & -> & _) | (-> & -> & _)].
      * by apply Hts.
      * simpl. by apply paid_unborn.
    + rewrite Hp. eapply Forall_impl; [exact Hb|]. simpl. intros; lia.
  - destruct (0 <=? d)%Z; [|done]. by injection Hstep as <-.
  - destruct (tasks w !! k) as [t|] eqn:Ht;
      [|unfold run_task in Hstep; by rewrite Ht in Hstep].
    destruct (run_task_frame w k t w' Ht Hstep)
      as (t' & extra & HT & Hinv & _ & Hadv & HP & _).
    assert (Hklt : k < length (tasks w)) by by eapply lookup_lt_Some.
    split.
    + intros k' t1. rewrite HT, (paid_app w w' k' k extra HP).
      destruct (decide (k = k')) as [<-|Hne].
      * rewrite list_lookup_insert_eq by done. intros [= <-]. rewrite Hinv.
        by eapply pc_paid_ok_advances; [|apply Hts].
      * rewrite list_lookup_insert_ne, app_nil_r by done. apply Hts.
    + rewrite HT, HP, length_insert. apply Forall_app. split; [done|].
      apply Forall_fmap, Forall_forall. by intros.
Qed.

Lemma payments_ok_reachable w : reachable w → payments_ok w.
Proof.
  apply reachable_invariant.
  - intros z0. split; [by intros [] | by constructor].
  - intros e w0 w' _. apply payments_ok_step.
Qed.

(** ** What a block does to the state objects *)

(** The first block of a workflow always ends in the poll sleep: the status
    it reads back is the ['pending'] it has just written. *)
Lemma start_sleeps w k inv :
  start k inv w
  = set_pc k (Sleeping (now w) (now w + pollInterval))
      match approvals_get w (id inv) with
      | Some (l, _) => write_status l pending w
      | None => w
      end.
Proof.
  unfold start, poll_loop.
  destruct (approvals_get w (id inv)) as [[l st]|] eqn:Hg.
  - simpl. rewrite Z.sub_diag. simpl.
    by erewrite approvals_get_write_status_eq.
  - rewrite Z.sub_diag, Hg. done.
Qed.

(** How one block of task [k] changes the object at [l]: its invoice stays,
    and its status stays too unless the block is the start-up reset, the
    gate reading ['pending'] past the deadline or ['approved'], or the end of
    the payment loop of the task that holds the object. *)
Lemma run_task_objects w k t w' l st :
  tasks w !! k = Some t → run_task k w = Some w' → heap w !! l = Some st →
  ∃ st', heap w' !! l = Some st' ∧ invoice st' = invoice st ∧
    (status st' = status st
     ∨ (pc t = NotStarted ∧ approvals w !! id (t_invoice t) = Some l
        ∧ status st' = pending)
     ∨ (before_gate (pc t) ∧ approvals w !! id (t_invoice t) = Some l
        ∧ ((status st = pending ∧ status st' = rejected)
           ∨ (status st = approved
              ∧ (status st' = processing ∨ status st' = completed))))
     ∨ (∃ results line rest readyAt,
          pc t = Paying l results line rest readyAt ∧ status st' = completed)).
Proof.
  intros Ht Hrun Hl. unfold run_task in Hrun. rewrite Ht in Hrun. simpl in Hrun.
  set (Q := λ w'' : World (num := num),
    ∃ st', heap w'' !! l = Some st' ∧ invoice st' = invoice st ∧
      (status st' = status st
       ∨ (pc t = NotStarted ∧ approvals w !! id (t_invoice t) = Some l
          ∧ status st' = pending)
       ∨ (before_gate (pc t) ∧ approvals w !! id (t_invoice t) = Some l
          ∧ ((status st = pending ∧ status st' = rejected)
             ∨ (status st = approved
                ∧ (status st' = processing ∨ status st' = completed))))
       ∨ (∃ results line rest readyAt,
            pc t = Paying l results line rest readyAt ∧ status st' = completed))).
  change (Q w').
  assert (Hsame : ∀ w'', heap w'' = heap w → Q w'').
  { intros w'' Hh. exists st. rewrite Hh. auto. }
  assert (Hgate : before_gate (pc t) → Q (after_gate k (t_invoice t) w)).
  { intros Hbg. unfold after_gate.
    destruct (approvals_get w (id (t_invoice t))) as [[l1 st1]|] eqn:Hg;
      [|by apply Hsame].
    apply approvals_get_Some in Hg as [Ha Hl1].
    destruct (status st1) eqn:Hs1; try by apply Hsame.
    - unfold Q. simpl. destruct (decide (l1 = l)) as [->|Hne];
        [|rewrite !list_lookup_alter_ne by done; exists st; by auto].
      rewrite !list_lookup_alter_eq, Hl. simpl.
      eexists. split; [done|]. split; [done|].
      assert (st1 = st) as -> by congruence. right. right. left. by auto.
    - unfold Q, pay_loop, finish. destruct (lines (t_invoice t)); simpl.
      + destruct (decide (l1 = l)) as [->|Hne];
          [|rewrite !list_lookup_alter_ne by done; exists st; by auto].
        rewrite !list_lookup_alter_eq, Hl. simpl.
        eexists. split; [done|]. split; [done|].
        assert (st1 = st) as -> by congruence. right. right. left. by auto 6.
      + destruct (decide (l1 = l)) as [->|Hne];
          [|rewrite !list_lookup_alter_ne by done; exists st; by auto].
        rewrite !list_lookup_alter_eq, Hl. simpl.
        eexists. split; [done|]. split; [done|].
        assert (st1 = st) as -> by congruence. right. right. left. by auto 6. }
  destruct (pc t) as [|s u|l1 results line rest u|r] eqn:Hpc.
  - injection Hrun as <-. clear Hgate. rewrite start_sleeps.
    destruct (approvals_get w (id (t_invoice t))) as [[l1 st1]|] eqn:Hg;
      [|by apply Hsame].
    apply approvals_get_Some in Hg as [Ha Hl1]. unfold Q. simpl.
    destruct (decide (l1 = l)) as [->|Hne];
      [|rewrite !list_lookup_alter_ne by done; exists st; by auto].
    rewrite !list_lookup_alter_eq, Hl. simpl.
    eexists. split; [done|]. split; [done|].
    right. left. by auto.
  - destruct (_ <=? _)%Z; [|done]. injection Hrun as <-.
    unfold poll_loop. destruct (_ <? _)%Z; [|by apply Hgate].
    destruct (status ∘ snd <$> approvals_get w (id (t_invoice t))) as [[]|];
      first [by apply Hgate | by apply Hsame].
  - destruct (_ <=? _)%Z; [|done]. injection Hrun as <-.
    unfold pay_loop, finish. destruct rest as [|line' rest']; [|by apply Hsame].
    unfold Q. simpl.
    destruct (decide (l1 = l)) as [->|Hne];
      [|rewrite !list_lookup_alter_ne by done; exists st; by auto].
    rewrite !list_lookup_alter_eq, Hl. simpl.
    eexists. split; [done|]. split; [done|].
    right. right. right. by do 4 eexists.
  - destruct (callbacks t) as [|iid cbs]; [done|]. injection Hrun as <-.
    unfold store_result. rewrite approvals_get_set_tasks.
    destruct (approvals_get w iid) as [[l1 st1]|]; [|by apply Hsame].
    unfold Q. simpl.
    destruct (decide (l1 = l)) as [->|Hne];
      [|rewrite !list_lookup_alter_ne by done; exists st; by auto].
    rewrite !list_lookup_alter_eq, Hl. simpl. eexists. by auto.
Qed.

(** A task found awaiting a payment after one of its blocks either was
    awaiting one on the same object before, the heap being untouched, or has
    just passed the gate on the object its invoice id refers to, which it
    moved to ['processing']. *)
Lemma run_task_paying w k t w' t' l results line rest readyAt :
  tasks w !! k = Some t → run_task k w = Some w' →
  tasks w' !! k = Some t' → pc t' = Paying l results line rest readyAt →
  (∃ results0 line0 rest0 readyAt0,
     pc t = Paying l results0 line0 rest0 readyAt0 ∧ heap w' = heap w)
  ∨ (approvals w !! id (t_invoice t) = Some l
     ∧ ∃ st', heap w' !! l = Some st' ∧ status st' = processing).
Proof.
  intros Ht Hrun Ht' Hpc'. unfold run_task in Hrun. rewrite Ht in Hrun. simpl in Hrun.
  assert (Hset : ∀ w0 p, w' = set_pc k p w0 → tasks w0 = tasks w → p = pc t').
  { intros w0 p -> Hts. rewrite (tasks_set_pc w0 k p t) in Ht' by by rewrite Hts.
    by injection Ht' as <-. }
  assert (Hno : ∀ w0 p, w' = set_pc k p w0 → tasks w0 = tasks w →
                 (∀ a b c d e, p ≠ Paying a b c d e) → False).
  { intros w0 p Hw Hts Hp. apply (Hp l results line rest readyAt).
    rewrite <- Hpc'. by eapply Hset. }
  assert (Hgate : w' = after_gate k (t_invoice t) w →
    approvals w !! id (t_invoice t) = Some l
    ∧ ∃ st', heap w' !! l = Some st' ∧ status st' = processing).
  { unfold after_gate.
    destruct (approvals_get w (id (t_invoice t))) as [[l1 st1]|] eqn:Hg;
      [|intros Hw; by destruct (Hno _ _ Hw eq_refl)].
    apply approvals_get_Some in Hg as [Ha Hl1].
    destruct (status st1);
      try (intros Hw; by destruct (Hno _ _ Hw eq_refl)).
    unfold pay_loop, finish. destruct (lines (t_invoice t)) as [|ln lns].
      + intros Hw.
        by destruct (Hno _ _ Hw eq_refl).
      + intros Hw. pose proof (Hset _ _ Hw eq_refl) as Hp.
        rewrite Hpc' in Hp. injection Hp as <- _ _ _ _.
        split; [done|]. subst w'. simpl.
        rewrite list_lookup_alter_eq, Hl1. by eexists. }
  destruct (pc t) as [|s u|l1 results1 line1 rest1 u|r] eqn:Hpc.
  - injection Hrun as Hw. rewrite start_sleeps in Hw. symmetry in Hw.
    destruct (approvals_get w (id (t_invoice t))) as [[l1 st1]|].
    + by destruct (Hno _ _ Hw eq_refl).
    + by destruct (Hno _ _ Hw eq_refl).
  - destruct (_ <=? _)%Z; [|done]. injection Hrun as Hw. symmetry in Hw.
    right. unfold poll_loop in Hw. destruct (_ <? _)%Z; [|by apply Hgate].
    destruct (status ∘ snd <$> approvals_get w (id (t_invoice t))) as [[]|];
      first [by apply Hgate | by destruct (Hno _ _ Hw eq_refl)].
  - destruct (_ <=? _)%Z; [|done]. injection Hrun as Hw. symmetry in Hw.
    left. unfold pay_loop, finish in Hw. destruct rest1 as [|ln lns].
    + by destruct (Hno _ _ Hw eq_refl).
    + pose proof (Hset _ _ Hw eq_refl) as Hp.
      rewrite Hpc' in Hp. injection Hp as <- _ _ _ _.
      subst w'. by do 4 eexists.
  - destruct (callbacks t) as [|iid cbs]; [done|]. injection Hrun as Hw.
    exfalso. subst w'. unfold store_result in Ht'.
    rewrite approvals_get_set_tasks in Ht'.
    destruct (approvals_get w iid) as [[l1 st1]|]; simpl in Ht';
      rewrite list_lookup_alter_eq, Ht in Ht'; injection Ht' as <-;
      simpl in Hpc'; congruence.
Qed.

(** How a tool call changes the object at [l]: only [approve_invoice] and
    [reject_invoice] write to an existing object, and only to one that is
    ['pending'] under the id they are given. *)
Lemma call_tool_objects name args w l st :
  heap w !! l = Some st →
  ∃ st', heap (fst (call_tool name args w)) !! l = Some st'
    ∧ invoice st' = invoice st
    ∧ (status st' = status st
       ∨ (status st = pending ∧ approvals w !! invoice_id args = Some l
          ∧ (status st' = approved ∨ status st' = rejected))).
Proof.
  intros Hl.
  assert (Hdec : ∀ s ack, s = approved ∨ s = rejected →
    ∃ st', heap (fst (decide_invoice s ack args w)) !! l = Some st'
      ∧ invoice st' = invoice st
      ∧ (status st' = status st
         ∨ (status st = pending ∧ approvals w !! invoice_id args = Some l
            ∧ (status st' = approved ∨ status st' = rejected)))).
  { intros s ack Hs. unfold decide_invoice.
    destruct (approvals_get w (invoice_id args)) as [[l1 st1]|] eqn:Hg;
      [|exists st; by auto].
    apply approvals_get_Some in Hg as [Ha Hl1].
    destruct (status st1) eqn:Hs1; try (exists st; by auto). simpl.
    destruct (decide (l1 = l)) as [->|Hne];
      [|rewrite list_lookup_alter_ne by done; exists st; by auto].
    rewrite list_lookup_alter_eq, Hl. simpl. eexists. split; [done|].
    split; [done|]. right. assert (st1 = st) as -> by congruence.
    simpl. destruct Hs as [-> | ->]; auto. }
  unfold call_tool.
  destruct (String.eqb name "submit_invoice").
  { destruct (submit_invoice_store args w) as (Hh & _). rewrite Hh.
    exists st. rewrite lookup_app_l by by eapply lookup_lt_Some. auto. }
  destruct (String.eqb name "approve_invoice"); [apply Hdec; auto|].
  destruct (String.eqb name "reject_invoice"); [apply Hdec; auto|].
  destruct (String.eqb name "check_invoice_status"); [|exists st; by auto].
  unfold check_invoice_status.
  destruct (approvals_get w (invoice_id args)) as [[l1 st1]|]; exists st; by auto.
Qed.

Lemma call_tool_approvals name args w :
  approvals (fst (call_tool name args w))
  = if String.eqb name "submit_invoice"
    then <[invoice_id args := length (heap w)]> (approvals w)
    else approvals w.
Proof.
  unfold call_tool.
  destruct (String.eqb name "submit_invoice").
  { by destruct (submit_invoice_store args w) as (_ & Ha & _). }
  destruct (String.eqb name "approve_invoice").
  { unfold approve_invoice, decide_invoice.
    destruct (approvals_get w (invoice_id args)) as [[l1 st1]|]; [|done].
    by destruct (status st1). }
  destruct (String.eqb name "reject_invoice").
  { unfold reject_invoice, decide_invoice.
    destruct (approvals_get w (invoice_id args)) as [[l1 st1]|]; [|done].
    by destruct (status st1). }
  destruct (String.eqb name "check_invoice_status"); [|done].
  unfold check_invoice_status.
  by destruct (approvals_get w (invoice_id args)) as [[l1 st1]|].
Qed.

(** ** The store stays well formed *)

Lemma store_ok_call name args w :
  store_ok w → store_ok (fst (call_tool name args w)).
Proof.
  intros (S1 & S2 & S3 & S4).
  destruct (call_tool_tasks name args w) as (_ & _ & _ & Hts).
  pose proof (call_tool_approvals name args w) as Ha.
  split; [|split; [|split]].
  - intros iid l Hl. rewrite Ha in Hl.
    assert (Hold : approvals w !! iid = Some l →
      ∃ st, heap (fst (call_tool name args w)) !! l = Some st ∧ id (invoice st) = iid).
    { intros Hl0. destruct (S1 iid l Hl0) as (st & Hst & Hid).
      destruct (call_tool_objects name args w l st Hst) as (st' & Hst' & Hinv & _).
      exists st'. by rewrite Hinv. }
    destruct (String.eqb_spec name "submit_invoice") as [->|_]; [|by apply Hold].
    destruct (decide (invoice_id args = iid)) as [<-|Hne].
    + rewrite lookup_insert_eq in Hl. injection Hl as <-.
      unfold call_tool. simpl.
      destruct (submit_invoice_store args w) as (Hh & _). rewrite Hh.
      rewrite lookup_app_r, Nat.sub_diag by lia. by eexists.
    + rewrite lookup_insert_ne in Hl by done. by apply Hold.
  - intros k t' Ht'.
    destruct (Hts k t' Ht') as [(t & Ht & _ & -> & ->) | (_ & _ & _ & Hid & -> & _)].
    + by eapply S2.
    + by rewrite Hid.
  - intros k k' t1 t2 Ht1 Ht2 Heq.
    destruct (Hts k t1 Ht1) as [(u1 & Hu1 & _ & _ & He1) | (-> & _ & _ & _ & _ & Hf1)];
    destruct (Hts k' t2 Ht2) as [(u2 & Hu2 & _ & _ & He2) | (-> & _ & _ & _ & _ & Hf2)].
    + eapply S3; [exact Hu1 | exact Hu2 | congruence].
    + exfalso. eapply find_execution_None; [exact Hf2 | exact Hu1 | congruence].
    + exfalso. eapply find_execution_None; [exact Hf1 | exact Hu2 | congruence].
    + done.
  - intros k t' l results line rest readyAt Ht' Hpc'.
    destruct (Hts k t' Ht') as [(t & Ht & Hpc & Hinv & _) | (_ & Hns & _)];
      [|congruence].
    rewrite Hpc in Hpc'.
    destruct (S4 k t l results line rest readyAt Ht Hpc') as (st & Hst & Hs & Hid).
    destruct (call_tool_objects name args w l st Hst)
      as (st' & Hst' & Hinv' & [Hsame | (Hpend & _)]); [|congruence].
    exists st'. rewrite Hinv', Hsame, Hinv. auto.
Qed.

Lemma store_ok_run k w w' : store_ok w → run_task k w = Some w' → store_ok w'.
Proof.
  intros (S1 & S2 & S3 & S4) Hrun.
  destruct (tasks w !! k) as [t|] eqn:Ht;
    [|unfold run_task in Hrun; by rewrite Ht in Hrun].
  destruct (run_task_frame w k t w' Ht Hrun)
    as (tk & extra & HT & Hinv & Heid & _ & _ & HA & _).
  assert (Hklt : k < length (tasks w)) by by eapply lookup_lt_Some.
  assert (Hold : ∀ k1 t1, tasks w' !! k1 = Some t1 →
    ∃ u1, tasks w !! k1 = Some u1 ∧ t_invoice t1 = t_invoice u1
          ∧ exec_id t1 = exec_id u1 ∧ (k1 ≠ k → t1 = u1)).
  { intros k1 t1. rewrite HT. destruct (decide (k = k1)) as [<-|Hne].
    - rewrite list_lookup_insert_eq by done. intros [= <-]. by exists t.
    - rewrite list_lookup_insert_ne by done. intros Hk1. by exists t1. }
  split; [|split; [|split]].
  - intros iid l Hl. rewrite HA in Hl. destruct (S1 iid l Hl) as (st & Hst & Hid).
    destruct (run_task_objects w k t w' l st Ht Hrun Hst) as (st' & Hst' & Hinv' & _).
    exists st'. by rewrite Hinv'.
  - intros k1 t1 Ht1. destruct (Hold k1 t1 Ht1) as (u1 & Hu1 & -> & -> & _).
    by eapply S2.
  - intros k1 k2 t1 t2 Ht1 Ht2 Heq.
    destruct (Hold k1 t1 Ht1) as (u1 & Hu1 & _ & He1 & _).
    destruct (Hold k2 t2 Ht2) as (u2 & Hu2 & _ & He2 & _).
    eapply S3; [exact Hu1 | exact Hu2 | congruence].
  - intros k1 t1 l results line rest readyAt Ht1 Hpc1.
    destruct (decide (k1 = k)) as [->|Hne].
    + assert (t1 = tk) as ->.
      { rewrite HT, list_lookup_insert_eq in Ht1 by done. by injection Ht1. }
      rewrite Hinv.
      destruct (run_task_paying w k t w' tk l results line rest readyAt Ht Hrun Ht1 Hpc1)
        as [(r0 & l0 & rs0 & z0 & Hpc & Hh) | (Ha & st' & Hst' & Hs')].
      * rewrite Hh. by eapply S4.
      * destruct (S1 _ l Ha) as (st & Hst & Hid).
        destruct (run_task_objects w k t w' l st Ht Hrun Hst) as (st2 & Hst2 & Hinv2 & _).
        exists st'. split; [done|]. split; [done|]. congruence.
    + destruct (Hold k1 t1 Ht1) as (u1 & Hu1 & _ & _ & Heq). rewrite (Heq Hne) in *.
      destruct (S4 k1 u1 l results line rest readyAt Hu1 Hpc1) as (st & Hst & Hs & Hid).
      assert (Hclash : id (t_invoice t) = id (t_invoice u1) → False).
      { intros Hsame. apply Hne. eapply S3; [exact Hu1 | exact Ht |].
        rewrite (S2 k1 u1 Hu1), (S2 k t Ht). by rewrite Hsame. }
      destruct (run_task_objects w k t w' l st Ht Hrun Hst)
        as (st' & Hst' & Hinv' &
            [Hsame | [(_ & Ha & _) | [(_ & _ & [[Hp _] | [Hp _]]) | (r0 & l0 & rs0 & z0 & Hpc & _)]]]).
      * exists st'. rewrite Hinv', Hsame. auto.
      * exfalso. apply Hclash. destruct (S1 _ l Ha) as (st0 & Hst0 & Hid0). congruence.
      * congruence.
      * congruence.
      * exfalso. apply Hclash.
        destruct (S4 k t l r0 l0 rs0 z0 Ht Hpc) as (st0 & Hst0 & _ & Hid0). congruence.
Qed.

Lemma store_ok_step e w w' : store_ok w → step e w = Some w' → store_ok w'.
Proof.
  intros Hok Hstep. destruct e as [name args|d|k]; simpl in Hstep.
  - injection Hstep as <-. by apply store_ok_call.
  - destruct (0 <=? d)%Z; [|done]. by injection Hstep as <-.
  - by eapply store_ok_run.
Qed.

Lemma store_ok_reachable w : reachable w → store_ok w.
Proof.
  apply reachable_invariant.
  - intros z0. split; [|split; [|split]]; simpl.
    + intros iid l. by rewrite lookup_empty.
    + by intros [].
    + by intros [].
    + by intros [].
  - intros e w0 w' _. apply store_ok_step.
Qed.

Lemma tasks_persist name args w k t :
  tasks w !! k = Some t →
  ∃ t', tasks (fst (call_tool name args w)) !! k = Some t' ∧ exec_id t' = exec_id t.
Proof.
  intros Ht. destruct (call_tool_tasks name args w) as (_ & _ & Hlen & Hts).
  assert (Hk : k < length (tasks w)) by by eapply lookup_lt_Some.
  destruct (lookup_lt_is_Some_2 (tasks (fst (call_tool name args w))) k) as [t' Ht'];
    [lia|].
  exists t'. split; [done|].
  destruct (Hts k t' Ht') as [(t0 & Ht0 & _ & _ & He) | (-> & _)]; [congruence | lia].
Qed.

Lemma executions_ok_step e w w' :
  executions_ok w → step e w = Some w' → executions_ok w'.
Proof.
  intros Hok Hstep. destruct e as [name args|d|k]; simpl in Hstep.
  - injection Hstep as <-. intros iid l. rewrite call_tool_approvals.
    assert (Hold : approvals w !! iid = Some l →
      ∃ k t, tasks (fst (call_tool name args w)) !! k = Some t
             ∧ exec_id t = "invoice-" +:+ iid).
    { intros Hl. destruct (Hok iid l Hl) as (k & t & Ht & He).
      destruct (tasks_persist name args w k t Ht) as (t' & Ht' & He').
      exists k, t'. split; [done | congruence]. }
    destruct (String.eqb_spec name "submit_invoice") as [->|_]; [|done].
    destruct (decide (invoice_id args = iid)) as [<-|Hne];
      [|by rewrite lookup_insert_ne].
    intros _. unfold call_tool, submit_invoice, durableProcessInvoice. simpl.
    destruct (find_execution ("invoice-" +:+ invoice_id args) (tasks w)) as [k0|] eqn:Hf;
      simpl.
    + destruct (find_execution_Some _ _ _ Hf) as (t0 & Ht0 & He0).
      exists k0. eexists. by rewrite list_lookup_alter_eq, Ht0.
    + exists (length (tasks w)). eexists.
      by rewrite list_lookup_alter_eq, lookup_app_r, Nat.sub_diag by lia.
  - destruct (0 <=? d)%Z; [|done]. by injection Hstep as <-.
  - destruct (tasks w !! k) as [t|] eqn:Ht;
      [|unfold run_task in Hstep; by rewrite Ht in Hstep].
    destruct (run_task_frame w k t w' Ht Hstep)
      as (tk & extra & HT & _ & Heid & _ & _ & HA & _).
    intros iid l. rewrite HA, HT. intros Hl.
    destruct (Hok iid l Hl) as (k1 & t1 & Ht1 & He1).
    destruct (decide (k = k1)) as [<-|Hne].
    + exists k, tk. rewrite list_lookup_insert_eq by by eapply lookup_lt_Some.
      split; [done | congruence].
    + exists k1, t1. by rewrite list_lookup_insert_ne.
Qed.

Lemma executions_ok_reachable w : reachable w → executions_ok w.
Proof.
  apply reachable_invariant.
  - intros z0 iid l. simpl. by rewrite lookup_empty.
  - intros e w0 w' _. apply executions_ok_step.
Qed.

(** ** Callbacks *)

Lemma append_inj_l (p a b : string) : p +:+ a = p +:+ b → a = b.
Proof. induction p as [|c p IH]; simpl; [done|]. intros [= Heq]. by apply IH. Qed.

Lemma call_tool_callbacks name args w k t' :
  tasks (fst (call_tool name args w)) !! k = Some t' →
  (∃ t, tasks w !! k = Some t ∧ pc t' = pc t ∧ t_invoice t' = t_invoice t
        ∧ (callbacks t' = callbacks t
           ∨ (exec_id t = "invoice-" +:+ invoice_id args
              ∧ callbacks t' = callbacks t ++ [invoice_id args])))
  ∨ (id (t_invoice t') = invoice_id args ∧ callbacks t' = [invoice_id args]).
Proof.
  assert (Hsame : ∀ w', tasks w' = tasks w → tasks w' !! k = Some t' →
    (∃ t, tasks w !! k = Some t ∧ pc t' = pc t ∧ t_invoice t' = t_invoice t
          ∧ (callbacks t' = callbacks t
             ∨ (exec_id t = "invoice-" +:+ invoice_id args
                ∧ callbacks t' = callbacks t ++ [invoice_id args])))
    ∨ (id (t_invoice t') = invoice_id args ∧ callbacks t' = [invoice_id args])).
  { intros w' -> Hk. left. exists t'. auto. }
  unfold call_tool.
  destruct (String.eqb name "submit_invoice").
  { unfold submit_invoice, durableProcessInvoice. simpl.
    destruct (find_execution ("invoice-" +:+ invoice_id args) (tasks w)) as [k0|] eqn:Hf;
      simpl.
    - destruct (find_execution_Some _ _ _ Hf) as (t0 & Ht0 & He0).
      destruct (decide (k0 = k)) as [<-|Hne].
      + rewrite list_lookup_alter_eq, Ht0. simpl. intros [= <-]. left.
        exists t0. simpl. repeat split; try done. by right.
      + rewrite list_lookup_alter_ne by done. intros Hk. left. exists t'. auto.
    - destruct (decide (length (tasks w) = k)) as [<-|Hne].
      + rewrite list_lookup_alter_eq, lookup_app_r, Nat.sub_diag by lia. simpl.
        intros [= <-]. by right.
      + rewrite list_lookup_alter_ne by done. intros Hk. left.
        assert (k < length (tasks w)).
        { apply lookup_lt_Some in Hk. rewrite length_app in Hk. simpl in Hk. lia. }
        rewrite lookup_app_l in Hk by done. exists t'. auto. }
  destruct (String.eqb name "approve_invoice").
  { unfold approve_invoice, decide_invoice.
    destruct (approvals_get w (invoice_id args)) as [[l st]|]; [|by apply Hsame].
    destruct (status st); by apply Hsame. }
  destruct (String.eqb name "reject_invoice").
  { unfold reject_invoice, decide_invoice.
    destruct (approvals_get w (invoice_id args)) as [[l st]|]; [|by apply Hsame].
    destruct (status st); by apply Hsame. }
  destruct (String.eqb name "check_invoice_status"); [|by apply Hsame].
  unfold check_invoice_status.
  destruct (approvals_get w (invoice_id args)) as [[l st]|]; by apply Hsame.
Qed.

Lemma callbacks_ok_step e w w' :
  store_ok w → callbacks_ok w → step e w = Some w' → callbacks_ok w'.
Proof.
  intros (_ & S2 & _) Hok Hstep. destruct e as [name args|d|k]; simpl in Hstep.
  - injection Hstep as <-. intros k t' Ht'.
    destruct (call_tool_callbacks name args w k t' Ht')
      as [(t & Ht & Hpc & Hinv & Hcb) | [Hid Hcb]].
    + destruct (Hok k t Ht) as [Hall Hne]. rewrite Hpc, Hinv.
      destruct Hcb as [-> | [He ->]]; [done|]. split.
      * apply Forall_app. split; [done|]. apply Forall_singleton.
        rewrite (S2 k t Ht) in He. symmetry. by eapply append_inj_l.
      * intros _. by destruct (callbacks t).
    + rewrite Hcb. split; [by apply Forall_singleton | done].
  - destruct (0 <=? d)%Z; [|done]. by injection Hstep as <-.
  - destruct (tasks w !! k) as [t|] eqn:Ht;
      [|unfold run_task in Hstep; by rewrite Ht in Hstep].
    destruct (run_task_frame w k t w' Ht Hstep)
      as (tk & extra & HT & Hinv & _ & Hadv & _ & _ & _ & _ & Hcb).
    intros k1 t1. rewrite HT. destruct (decide (k = k1)) as [<-|Hne];
      [|rewrite list_lookup_insert_ne by done; apply Hok].
    rewrite list_lookup_insert_eq by by eapply lookup_lt_Some.
    intros [= <-]. destruct (Hok k t Ht) as [Hall Hne]. rewrite Hinv.
    destruct Hcb as [-> | (r & iid & Hpc & Hcb)].
    + split; [done|]. intros Hnr. apply Hne. intros r Hpc.
      rewrite Hpc in Hadv. inversion Hadv; subst; try done. by eapply Hnr.
    + rewrite Hcb in Hall. apply Forall_cons in Hall as [_ Hall]. split; [done|].
      intros Hnr. exfalso. rewrite Hpc in Hadv.
      inversion Hadv; subst; try done. by eapply Hnr.
Qed.

Lemma callbacks_ok_reachable w : reachable w → callbacks_ok w.
Proof.
  apply reachable_invariant.
  - by intros z0 [].
  - intros e w0 w' Hreach. apply callbacks_ok_step. by apply store_ok_reachable.
Qed.

Lemma next_callback w k t :
  reachable w → tasks w !! k = Some t → (∀ r, pc t ≠ Returned r) →
  ∃ cbs, callbacks t = id (t_invoice t) :: cbs.
Proof.
  intros Hreach Ht Hpc.
  destruct (callbacks_ok_reachable w Hreach k t Ht) as [Hall Hne].
  destruct (callbacks t) as [|iid cbs]; [by destruct (Hne Hpc)|].
  apply Forall_cons in Hall as [-> _]. by exists cbs.
Qed.

(** ** Undisturbed runs *)

Lemma exec_app es1 es2 w :
  exec (es1 ++ es2) w = w' ← exec es1 w; exec es2 w'.
Proof.
  revert w. induction es1 as [|e es1 IH]; intros w; simpl; [done|].
  destruct (step e w) as [w1|]; simpl; [apply IH | done].
Qed.

Lemma exec_tick_run d k es w :
  (0 ≤ d)%Z →
  exec (Tick d :: Run k :: es) w
  = w' ← run_task k (set_now (now w + d) w); exec es w'.
Proof. intros Hd. simpl. destruct (Z.leb_spec 0 d); [done | lia]. Qed.

Lemma exec_run k es w w1 :
  run_task k w = Some w1 → exec (Run k :: es) w = exec es w1.
Proof. intros Hrun. simpl. by rewrite Hrun. Qed.

Lemma run_paying w k t l results line rest readyAt :
  tasks w !! k = Some t → pc t = Paying l results line rest readyAt →
  (readyAt ≤ now w)%Z →
  run_task k w = Some (pay_loop k l (results ++ [processPayment line]) rest w).
Proof.
  intros Ht Hpc Hready. unfold run_task. rewrite Ht. simpl. rewrite Hpc.
  destruct (Z.leb_spec readyAt (now w)); [done | lia].
Qed.

(** A paying task that is resumed each time its payment is through makes
    the remaining payments in order and returns the joined confirmations. *)
Lemma pay_steps k l rest :
  ∀ w t results line readyAt,
    tasks w !! k = Some t →
    pc t = Paying l results line rest readyAt →
    (readyAt ≤ now w + paymentDelay)%Z →
    ∃ w',
      exec (pay_schedule k (S (length rest))) w = Some w'
      ∧ tasks w' !! k
        = Some (with_pc (Returned ("COMPLETED" +:+ nl +:+ String.concat nl
                                     (results ++ (processPayment <$> line :: rest)))) t)
      ∧ payments w' = payments w ++ (pair k <$> rest)
      ∧ approvals w' = approvals w
      ∧ heap w'
        = alter (with_result (String.concat nl
                                (results ++ (processPayment <$> line :: rest)))) l
            (alter (with_status completed) l (heap w)).
Proof.
  induction rest as [|line' rest' IH]; intros w t results line readyAt Ht Hpc Hready.
  - exists (finish k l (results ++ [processPayment line])
              (set_now (now w + paymentDelay) w)).
    split; [|split; [|split; [|split]]].
    + change (exec (Tick paymentDelay :: Run k :: []) w = Some
                (finish k l (results ++ [processPayment line])
                   (set_now (now w + paymentDelay) w))).
      rewrite exec_tick_run by (unfold paymentDelay; lia).
      by rewrite (run_paying (set_now (now w + paymentDelay) w) k t l results line []
                    readyAt Ht Hpc Hready).
    + unfold finish. by apply tasks_set_pc.
    + simpl. by rewrite app_nil_r.
    + done.
    + done.
  - set (w1 := set_now (now w + paymentDelay) w).
    set (w2 := pay_loop k l (results ++ [processPayment line]) (line' :: rest') w1).
    destruct (IH w2 (with_pc (Paying l (results ++ [processPayment line]) line' rest'
                               (now w1 + paymentDelay)) t)
                (results ++ [processPayment line]) line' (now w1 + paymentDelay)%Z)
      as (w' & Hex & Ht' & Hp' & Ha' & Hh').
    { unfold w2, pay_loop. by apply tasks_set_pc. }
    { done. }
    { done. }
    exists w'. split; [|split; [|split; [|split]]].
    + change (pay_schedule k (S (length (line' :: rest'))))
        with (Tick (num := num) paymentDelay :: Run k
              :: pay_schedule k (S (length rest'))).
      rewrite exec_tick_run by (unfold paymentDelay; lia).
      change (set_now (now w + paymentDelay) w) with w1.
      rewrite (run_paying w1 k t l results line (line' :: rest') readyAt Ht Hpc Hready).
      exact Hex.
    + rewrite Ht'. rewrite <- app_assoc. done.
    + rewrite Hp'. simpl. by rewrite <- app_assoc.
    + by rewrite Ha'.
    + rewrite Hh'. rewrite <- app_assoc. done.
Qed.

(** An approved invoice is processed to the end: the workflow passes the
    gate at its next poll, pays line after line, and returns. *)
Lemma approved_workflow_completes w k t startTime wakeAt l st :
  tasks w !! k = Some t →
  pc t = Sleeping startTime wakeAt →
  (wakeAt ≤ now w)%Z →
  approvals_get w (id (t_invoice t)) = Some (l, st) →
  status st = approved →
  ∃ w',
    exec (Run k :: pay_schedule k (length (lines (t_invoice t)))) w = Some w'
    ∧ tasks w' !! k
      = Some (with_pc (Returned ("COMPLETED" +:+ nl +:+ String.concat nl
                                   (processPayment <$> lines (t_invoice t)))) t)
    ∧ payments w' = payments w ++ (pair k <$> lines (t_invoice t))
    ∧ approvals_get w' (id (t_invoice t))
      = Some (l, {| status := completed; invoice := invoice st;
                    result := Some (String.concat nl
                                      (processPayment <$> lines (t_invoice t))) |}).
Proof.
  intros Ht Hpc Hwake Hg Hs.
  assert (Hrun : run_task k w
                 = Some (pay_loop k l [] (lines (t_invoice t))
                           (write_status l processing w))).
  { erewrite run_sleeping by done. unfold poll_loop.
    destruct (_ <? _)%Z; [rewrite Hg; simpl; rewrite Hs|];
      by erewrite after_gate_approved. }
  pose proof Hg as Hg0. apply approvals_get_Some in Hg0 as [Ha Hl].
  simpl exec. rewrite Hrun. simpl.
  destruct (lines (t_invoice t)) as [|line rest] eqn:Hlines.
  - eexists. split; [done|]. split; [unfold pay_loop, finish; by apply tasks_set_pc|].
    split; [simpl; by rewrite app_nil_r|].
    unfold pay_loop, finish. rewrite approvals_get_set_pc.
    rewrite (approvals_get_write_result_eq _ _ l
               (with_status completed (with_status processing st))); [done|].
    by apply approvals_get_write_status_eq, approvals_get_write_status_eq.
  - destruct (pay_steps k l rest
                (pay_loop k l [] (line :: rest) (write_status l processing w))
                (with_pc (Paying l [] line rest (now w + paymentDelay)) t)
                [] line (now w + paymentDelay)%Z)
      as (w' & Hex & Ht' & Hp' & Ha' & Hh').
    { unfold pay_loop. by apply tasks_set_pc. }
    { done. }
    { done. }
    exists w'. split; [exact Hex|]. split; [exact Ht'|]. split.
    { rewrite Hp'. simpl. by rewrite <- app_assoc. }
    apply approvals_get_Some. rewrite Ha', Hh'. split; [done|]. simpl.
    by rewrite !list_lookup_alter_eq, Hl.
Qed.

(** While the status stays pending and the deadline is ahead, each poll
    puts the workflow back to sleep and changes nothing else. *)
Lemma polls_keep_sleeping k n :
  ∀ w t startTime,
    tasks w !! k = Some t →
    pc t = Sleeping startTime (now w + pollInterval) →
    stored_status w (id (t_invoice t)) = Some pending →
    (now w - startTime + Z.of_nat n * pollInterval < timeout)%Z →
    ∃ w',
      exec (poll_schedule k n) w = Some w'
      ∧ tasks w' !! k = Some (with_pc (Sleeping startTime (now w' + pollInterval)) t)
      ∧ now w' = (now w + Z.of_nat n * pollInterval)%Z
      ∧ heap w' = heap w
      ∧ approvals w' = approvals w
      ∧ payments w' = payments w.
Proof.
  induction n as [|n IH]; intros w t s Ht Hpc Hst Hlive.
  - exists w. split; [done|]. split.
    { rewrite Ht. f_equal. destruct t. simpl in *. by subst. }
    split; [simpl; lia | done].
  - set (w1 := set_now (now w + pollInterval) w).
    set (w2 := set_pc k (Sleeping s (now w1 + pollInterval)) w1).
    assert (Hrun : run_task k w1 = Some w2).
    { erewrite (run_sleeping w1) by (try done; simpl; lia).
      rewrite poll_loop_live by (unfold pollInterval in *; simpl; lia).
      unfold stored_status in Hst.
      change (approvals_get w1 (id (t_invoice t)))
        with (approvals_get w (id (t_invoice t))).
      destruct (approvals_get w (id (t_invoice t))) as [[l st]|]; [|done].
      simpl in *. injection Hst as ->. done. }
    destruct (IH w2 (with_pc (Sleeping s (now w1 + pollInterval)) t) s)
      as (w' & Hex & Ht' & Hn' & Hh' & Ha' & Hp').
    { by apply tasks_set_pc. }
    { done. }
    { done. }
    { simpl. unfold pollInterval in *. lia. }
    exists w'. split; [|split; [|split; [|done]]].
    + change (poll_schedule k (S n))
        with (Tick (num := num) pollInterval :: Run k :: poll_schedule k n).
      rewrite exec_tick_run by (unfold pollInterval; lia).
      change (set_now (now w + pollInterval) w) with w1.
      by rewrite Hrun.
    + exact Ht'.
    + rewrite Hn'. simpl. unfold pollInterval. lia.
Qed.

(** An invoice nobody decides on is rejected by the timeout: the workflow
    starts, polls 300 times one second apart, and on the 300th poll, five
    minutes after its start, rejects; its callback then records the reason. *)
Lemma undecided_invoice_times_out w k t cbs l st ls :
  tasks w !! k = Some t →
  pc t = NotStarted →
  callbacks t = id (t_invoice t) :: cbs →
  approvals_get w (id (t_invoice t)) = Some (l, st) →
  ∃ w',
    exec (Run k :: poll_schedule k 299 ++ [Tick pollInterval; Run k; Run k]) w = Some w'
    ∧ payments w' = payments w
    ∧ call_tool "check_invoice_status"
        {| invoice_id := id (t_invoice t); args_lines := ls |} w'
      = (w', Ok ("Invoice " +:+ id (t_invoice t) +:+ ":" +:+ nl
                 +:+ "Status: rejected" +:+ nl
                 +:+ "Total Amount: $" +:+ num_show (totalAmount (invoice st)) +:+ nl
                 +:+ nl +:+ "Result:" +:+ nl +:+ "REJECTED due to timeout")).
Proof.
  intros Ht Hpc Hcb Hg.
  set (w1 := set_pc k (Sleeping (now w) (now w + pollInterval))
               (write_status l pending w)).
  assert (Hrun : run_task k w = Some w1).
  { unfold run_task. rewrite Ht. simpl. rewrite Hpc, start_sleeps. by rewrite Hg. }
  assert (Hg1 : approvals_get w1 (id (t_invoice t)) = Some (l, with_status pending st)).
  { unfold w1. rewrite approvals_get_set_pc. by apply approvals_get_write_status_eq. }
  destruct (polls_keep_sleeping k 299 w1
              (with_pc (Sleeping (now w) (now w + pollInterval)) t) (now w))
    as (w2 & Hex & Ht2 & Hn2 & Hh2 & Ha2 & Hp2).
  { unfold w1. by apply tasks_set_pc. }
  { done. }
  { unfold stored_status. simpl t_invoice. by rewrite Hg1. }
  { simpl. unfold timeout, pollInterval. lia. }
  set (w3 := set_now (now w2 + pollInterval) w2).
  destruct (timeout_block w3 k
              (with_pc (Sleeping (now w) (now w2 + pollInterval)) t)
              (now w) (now w2 + pollInterval) cbs l (with_status pending st) ls)
    as (w4 & w5 & Hr4 & _ & Hr5 & _ & Hp5 & Hcheck); try done.
  { apply approvals_get_Some. apply approvals_get_Some in Hg1 as [? ?].
    simpl. by rewrite Ha2, Hh2. }
  { simpl. rewrite Hn2. simpl. unfold timeout, pollInterval. lia. }
  exists w5. split; [|split; [by rewrite Hp5 | exact Hcheck]].
  rewrite (exec_run k _ w w1 Hrun), exec_app, Hex.
  change (exec [Tick pollInterval; Run k; Run k] w2 = Some w5).
  rewrite exec_tick_run by (unfold pollInterval; lia).
  change (set_now (now w2 + pollInterval) w2) with w3.
  rewrite Hr4. change (exec [Run k] w4 = Some w5). by rewrite (exec_run k [] w4 w5 Hr5).
Qed.

(** ** The claims about whole executions *)

Lemma forward_refl s : forward s s.
Proof. apply rtc_refl. Qed.

Lemma forward_once s s' : transition s s' → forward s s'.
Proof. apply rtc_once. Qed.

Lemma stored_status_Some w iid s :
  stored_status w iid = Some s
  ↔ ∃ l st, approvals w !! iid = Some l ∧ heap w !! l = Some st ∧ status st = s.
Proof.
  unfold stored_status. split.
  - destruct (approvals_get w iid) as [[l st]|] eqn:Hg; [|done].
    apply approvals_get_Some in Hg as [? ?]. intros [= <-]. by exists l, st.
  - intros (l & st & Ha & Hl & <-).
    by rewrite (proj2 (approvals_get_Some w iid l st) (conj Ha Hl)).
Qed.

(** C2.  A workflow whose poll loop wakes up after its deadline
    ([Date.now() - startTime >= timeout]) while the stored status is still
    ['pending'] moves the stored status to ['rejected'] and returns
    [REJECTED due to timeout]; once its [.then] callback has stored that
    value, [check_invoice_status] reports status [rejected] with that result.
    No payment is made. *)
Theorem timeout_auto_reject w k t startTime wakeAt l st ls :
  reachable w →
  tasks w !! k = Some t →
  pc t = Sleeping startTime wakeAt →
  approvals_get w (id (t_invoice t)) = Some (l, st) →
  status st = pending →
  (wakeAt ≤ now w)%Z →
  (timeout ≤ now w - startTime)%Z →
  ∃ w1 w2,
    run_task k w = Some w1
    ∧ stored_status w1 (id (t_invoice t)) = Some rejected
    ∧ run_task k w1 = Some w2
    ∧ stored_status w2 (id (t_invoice t)) = Some rejected
    ∧ payments w2 = payments w
    ∧ call_tool "check_invoice_status"
        {| invoice_id := id (t_invoice t); args_lines := ls |} w2
      = (w2, Ok ("Invoice " +:+ id (t_invoice t) +:+ ":" +:+ nl
                 +:+ "Status: rejected" +:+ nl
                 +:+ "Total Amount: $" +:+ num_show (totalAmount (invoice st)) +:+ nl
                 +:+ nl +:+ "Result:" +:+ nl +:+ "REJECTED due to timeout")).
Proof.
  intros Hreach Ht Hpc Hg Hs Hwake Hlate.
  destruct (next_callback w k t Hreach Ht) as [cbs Hcb]; [by rewrite Hpc|].
  by eapply timeout_block.
Qed.

(** C10.  The two ways to the single status ['rejected'] are told apart by
    the recorded result: a workflow that sees ['rejected'] while polling
    (before its deadline) returns [REJECTED by user], one that finds the
    status still ['pending'] after its deadline returns
    [REJECTED due to timeout]; the [.then] callback stores that string in the
    result field and [check_invoice_status] prints it under status
    [rejected]. *)
Theorem rejection_reason_recorded w k t startTime wakeAt l st ls :
  reachable w →
  tasks w !! k = Some t →
  pc t = Sleeping startTime wakeAt →
  approvals_get w (id (t_invoice t)) = Some (l, st) →
  (wakeAt ≤ now w)%Z →
  (status st = rejected ∧ now w - startTime < timeout)%Z
  ∨ (status st = pending ∧ timeout ≤ now w - startTime)%Z →
  let reason := if decide (status st = rejected) then "REJECTED by user"
                else "REJECTED due to timeout" in
  ∃ w1 w2 t1,
    run_task k w = Some w1
    ∧ tasks w1 !! k = Some t1 ∧ pc t1 = Returned reason
    ∧ run_task k w1 = Some w2
    ∧ approvals_get w2 (id (t_invoice t))
      = Some (l, {| status := rejected; invoice := invoice st; result := Some reason |})
    ∧ call_tool "check_invoice_status"
        {| invoice_id := id (t_invoice t); args_lines := ls |} w2
      = (w2, Ok ("Invoice " +:+ id (t_invoice t) +:+ ":" +:+ nl
                 +:+ "Status: rejected" +:+ nl
                 +:+ "Total Amount: $" +:+ num_show (totalAmount (invoice st)) +:+ nl
                 +:+ nl +:+ "Result:" +:+ nl +:+ reason))
    ∧ "REJECTED by user" ≠ "REJECTED due to timeout".
Proof.
  intros Hreach Ht Hpc Hg Hwake Hcase.
  destruct (next_callback w k t Hreach Ht) as [cbs Hcb]; [by rewrite Hpc|].
  by eapply rejection_blocks.
Qed.

(** C9.  The decision and the timeout are both due in the same world: the
    stored status is ['pending'], the workflow is ready to wake up past its
    deadline, and [approve_invoice] is called.  Whichever block runs first
    wins, and the other does not undo it.  If the approval runs first, the
    workflow then takes the approved path (status ['processing'], first
    payment issued; or ['completed'] at once for an invoice without lines) and
    returns no rejection.  If the workflow runs first, it rejects by timeout
    without any payment, and the approval then throws and changes nothing. *)
Theorem decision_timeout_race w k t startTime wakeAt l st args :
  tasks w !! k = Some t →
  pc t = Sleeping startTime wakeAt →
  invoice_id args = id (t_invoice t) →
  approvals_get w (id (t_invoice t)) = Some (l, st) →
  status st = pending →
  (wakeAt ≤ now w)%Z →
  (timeout ≤ now w - startTime)%Z →
  (∃ w1 w2 t2,
     call_tool "approve_invoice" args w
     = (w1, Ok ("Invoice " +:+ invoice_id args +:+ " approved! Processing payments..."))
     ∧ run_task k w1 = Some w2
     ∧ tasks w2 !! k = Some t2
     ∧ pc t2 = match lines (t_invoice t) with
               | [] => Returned ("COMPLETED" +:+ nl)
               | line :: rest => Paying l [] line rest (now w + paymentDelay)
               end
     ∧ stored_status w2 (id (t_invoice t))
       = Some (match lines (t_invoice t) with [] => completed | _ => processing end)
     ∧ payments w2
       = payments w ++ match lines (t_invoice t) with
                       | [] => []
                       | line :: _ => [(k, line)]
                       end)
  ∧ (∃ w1 t1,
       run_task k w = Some w1
       ∧ tasks w1 !! k = Some t1
       ∧ pc t1 = Returned "REJECTED due to timeout"
       ∧ stored_status w1 (id (t_invoice t)) = Some rejected
       ∧ payments w1 = payments w
       ∧ call_tool "approve_invoice" args w1
         = (w1, Throw ("Invoice " +:+ invoice_id args
                       +:+ " is not pending (status: rejected)"))).
Proof.
  intros Ht Hpc Hid Hg Hs Hwake Hlate. split.
  - pose (w1 := write_status l approved w).
    assert (Hg1 : approvals_get w1 (id (t_invoice t)) = Some (l, with_status approved st))
      by by apply approvals_get_write_status_eq.
    exists w1, (pay_loop k l [] (lines (t_invoice t)) (write_status l processing w1)).
    exists (with_pc match lines (t_invoice t) with
                    | [] => Returned ("COMPLETED" +:+ nl)
                    | line :: rest => Paying l [] line rest (now w + paymentDelay)
                    end t).
    split; [|split; [|split; [|split; [|split]]]].
    + unfold call_tool. simpl. unfold approve_invoice, decide_invoice.
      by rewrite Hid, Hg, Hs.
    + erewrite run_sleeping by done. rewrite poll_loop_expired by done.
      by erewrite after_gate_approved.
    + unfold pay_loop, finish. destruct (lines (t_invoice t)); by apply tasks_set_pc.
    + simpl. by destruct (lines (t_invoice t)).
    + assert (Hg2 : approvals_get (write_status l processing w1) (id (t_invoice t))
                    = Some (l, with_status processing (with_status approved st)))
        by by apply approvals_get_write_status_eq.
      unfold pay_loop, finish. destruct (lines (t_invoice t)).
      * rewrite stored_status_set_pc, stored_status_write_result.
        by eapply stored_status_write_status_eq.
      * rewrite stored_status_set_pc. unfold stored_status.
        change (approvals_get _ (id (t_invoice t)))
          with (approvals_get (write_status l processing w1) (id (t_invoice t))).
        by rewrite Hg2.
    + unfold pay_loop, finish.
      destruct (lines (t_invoice t)); simpl; [by rewrite app_nil_r | done].
  - pose (w1 := set_pc k (Returned "REJECTED due to timeout") (write_status l rejected w)).
    assert (Hg1 : approvals_get w1 (invoice_id args) = Some (l, with_status rejected st)).
    { rewrite Hid. unfold w1. rewrite approvals_get_set_pc.
      by apply approvals_get_write_status_eq. }
    exists w1. eexists. split; [|split; [|split; [|split; [|split]]]].
    + erewrite run_sleeping by done. rewrite poll_loop_expired by done.
      by erewrite after_gate_pending.
    + unfold w1. by apply tasks_set_pc.
    + done.
    + unfold stored_status. by rewrite <- Hid, Hg1.
    + done.
    + rewrite decision_throws; [by rewrite Hg1 | by left |].
      unfold stored_status. by rewrite Hg1.
Qed.

(** C6, as the code has it.  In a reachable world, every event moves the
    status stored under an invoice id forward along
    pending → approved → processing → completed or pending → rejected (or
    leaves it), except the two writes of ['pending']: [submit_invoice] on
    that id, which replaces the entry by a fresh one, and the first block of
    the id's workflow, which resets the status (line 91).  In particular
    ['rejected'] and ['completed'] are left by nothing else. *)
Theorem status_moves_forward w e w' iid s :
  reachable w →
  step e w = Some w' →
  ¬ writes_pending e w iid →
  stored_status w iid = Some s →
  ∃ s', stored_status w' iid = Some s' ∧ forward s s'.
Proof.
  intros Hreach Hstep Hnw Hs.
  destruct (store_ok_reachable w Hreach) as (S1 & S2 & S3 & S4).
  apply stored_status_Some in Hs as (l & st & Ha & Hl & <-).
  destruct e as [name args|d|k]; simpl in Hstep.
  - injection Hstep as <-.
    destruct (call_tool_objects name args w l st Hl) as (st' & Hl' & _ & Hcase).
    exists (status st'). split.
    + apply stored_status_Some. exists l, st'. split; [|done].
      rewrite call_tool_approvals.
      destruct (String.eqb_spec name "submit_invoice") as [->|_]; [|done].
      rewrite lookup_insert_ne; [done|]. intros Heq. apply Hnw. by split.
    + destruct Hcase as [-> | (-> & _ & [-> | ->])].
      * apply forward_refl.
      * apply forward_once, tr_approve.
      * apply forward_once, tr_reject.
  - destruct (0 <=? d)%Z; [|done]. injection Hstep as <-.
    exists (status st). split; [|apply forward_refl].
    apply stored_status_Some. by exists l, st.
  - destruct (tasks w !! k) as [t|] eqn:Ht;
      [|unfold run_task in Hstep; by rewrite Ht in Hstep].
    destruct (run_task_frame w k t w' Ht Hstep) as (_ & _ & _ & _ & _ & _ & _ & HA & _).
    destruct (run_task_objects w k t w' l st Ht Hstep Hl) as (st' & Hl' & _ & Hcase).
    exists (status st'). split.
    { apply stored_status_Some. exists l, st'. by rewrite HA. }
    destruct Hcase as
      [-> | [(Hpc & Hak & _) | [(_ & _ & [[-> ->] | [-> [-> | ->]]])
                               | (r0 & l0 & rs0 & z0 & Hpc & ->)]]].
    + apply forward_refl.
    + exfalso. apply Hnw. exists t. split; [done|]. split; [done|].
      destruct (S1 _ l Ha) as (st1 & Hst1 & Hid1).
      destruct (S1 _ l Hak) as (st2 & Hst2 & Hid2). congruence.
    + apply forward_once, tr_reject.
    + apply forward_once, tr_process.
    + eapply rtc_l; [apply tr_process | apply forward_once, tr_complete].
    + destruct (S4 k t l r0 l0 rs0 z0 Ht Hpc) as (st1 & Hst1 & Hs1 & _).
      assert (st1 = st) as -> by congruence. rewrite Hs1.
      apply forward_once, tr_complete.
Qed.

(** C4.  The completed result lists the payments in the order of the line
    items.  First, under every interleaving: in a reachable world, a workflow
    that has returned a [COMPLETED] result has returned [COMPLETED] followed
    by one payment confirmation per line item of its invoice, in line-item
    order, and has invoked [processPayment] on exactly those items in that
    order.  Second, that result is reached: a sleeping workflow whose invoice
    is approved passes the gate at its next poll, awaits one payment after
    the other, and returns that result, leaving the state ['completed'] with
    the joined confirmations as its result. *)
Theorem payments_in_line_order :
  (∀ w k t r,
     reachable w →
     tasks w !! k = Some t →
     pc t = Returned r →
     String.prefix "COMPLETED" r = true →
     r = "COMPLETED" +:+ nl +:+ String.concat nl (processPayment <$> lines (t_invoice t))
     ∧ paid w k = lines (t_invoice t))
  ∧ (∀ w k t startTime wakeAt l st,
       reachable w →
       tasks w !! k = Some t →
       pc t = Sleeping startTime wakeAt →
       (wakeAt ≤ now w)%Z →
       approvals_get w (id (t_invoice t)) = Some (l, st) →
       status st = approved →
       ∃ w',
         exec (Run k :: pay_schedule k (length (lines (t_invoice t)))) w = Some w'
         ∧ tasks w' !! k
           = Some (with_pc (Returned ("COMPLETED" +:+ nl +:+ String.concat nl
                                        (processPayment <$> lines (t_invoice t)))) t)
         ∧ paid w' k = lines (t_invoice t)
         ∧ approvals_get w' (id (t_invoice t))
           = Some (l, {| status := completed; invoice := invoice st;
                         result := Some (String.concat nl
                                           (processPayment <$> lines (t_invoice t))) |})).
Proof.
  split.
  - intros w k t r Hreach Ht Hpc Hr.
    destruct (payments_ok_reachable w Hreach) as [Hts _].
    specialize (Hts k t Ht). rewrite Hpc in Hts.
    destruct Hts as [[[-> | [-> | ->]] _] | [-> ->]]; done.
  - intros w k t s u l st Hreach Ht Hpc Hwake Hg Hs.
    destruct (approved_workflow_completes w k t s u l st Ht Hpc Hwake Hg Hs)
      as (w' & Hex & Ht' & Hp' & Hg').
    exists w'. split; [done|]. split; [done|]. split; [|done].
    destruct (payments_ok_reachable w Hreach) as [Hts _].
    specialize (Hts k t Ht). rewrite Hpc in Hts. simpl in Hts.
    rewrite (paid_app w w' k k _ Hp'), Hts, decide_True by done. done.
Qed.

(** C5.  In a reachable world, a workflow that has returned one of the
    rejection results has never invoked [processPayment]; and a sleeping
    workflow that wakes up to find the stored status ['rejected'] (explicit
    rejection), or still ['pending'] past its deadline (timeout), returns a
    rejection result in that very block, with no payment. *)
Theorem no_payment_on_rejection w k t :
  reachable w →
  tasks w !! k = Some t →
  (∀ r, pc t = Returned r → is_rejection r → paid w k = [])
  ∧ (∀ startTime wakeAt l st,
       pc t = Sleeping startTime wakeAt →
       (wakeAt ≤ now w)%Z →
       approvals_get w (id (t_invoice t)) = Some (l, st) →
       status st = rejected ∨ (status st = pending ∧ (timeout ≤ now w - startTime)%Z) →
       ∃ w' r,
         run_task k w = Some w'
         ∧ tasks w' !! k = Some (with_pc (Returned r) t)
         ∧ is_rejection r
         ∧ stored_status w' (id (t_invoice t)) = Some rejected
         ∧ payments w' = payments w
         ∧ paid w' k = []).
Proof.
  intros Hreach Ht.
  destruct (payments_ok_reachable w Hreach) as [Hts _].
  specialize (Hts k t Ht). split.
  - intros r Hpc Hr. rewrite Hpc in Hts. destruct Hts as [[_ Hp] | [-> _]]; [done|].
    by destruct Hr as [Hr | [Hr | Hr]].
  - intros s u l st Hpc Hwake Hg Hcase. rewrite Hpc in Hts. simpl in Hts.
    assert (Hret : ∀ r w0, heap w0 = heap w ∨ w0 = write_status l rejected w →
      is_rejection r →
      stored_status w0 (id (t_invoice t)) = Some rejected →
      tasks w0 = tasks w → payments w0 = payments w →
      run_task k w = Some (set_pc k (Returned r) w0) →
      ∃ w' r',
        run_task k w = Some w'
        ∧ tasks w' !! k = Some (with_pc (Returned r') t)
        ∧ is_rejection r'
        ∧ stored_status w' (id (t_invoice t)) = Some rejected
        ∧ payments w' = payments w
        ∧ paid w' k = []).
    { intros r w0 _ Hr Hst HT HP Hrun. exists (set_pc k (Returned r) w0), r.
      split; [done|]. split; [apply tasks_set_pc; by rewrite HT|].
      split; [done|]. split; [done|]. split; [done|].
      rewrite <- Hts. by apply paid_eq. }
    assert (Hrun0 : run_task k w = Some (poll_loop k (t_invoice t) s w))
      by by erewrite run_sleeping.
    destruct (Z.lt_ge_cases (now w - s) timeout) as [Hlive | Hlate].
    + destruct Hcase as [Hs | [_ ?]]; [|lia].
      apply (Hret "REJECTED by user" w); try done; [by left | by left | |].
      * unfold stored_status. by rewrite Hg, <- Hs.
      * rewrite Hrun0, poll_loop_live by done. rewrite Hg. simpl. by rewrite Hs.
    + destruct Hcase as [Hs | [Hs _]].
      * apply (Hret "REJECTED" w); try done;
          [by left | unfold is_rejection; auto | |].
        -- unfold stored_status. by rewrite Hg, <- Hs.
        -- rewrite Hrun0, poll_loop_expired by done.
           unfold after_gate. by rewrite Hg, Hs.
      * apply (Hret "REJECTED due to timeout" (write_status l rejected w)); try done;
          [by right | unfold is_rejection; auto | |].
        -- by eapply stored_status_write_status_eq.
        -- rewrite Hrun0, poll_loop_expired by done.
           unfold after_gate. by rewrite Hg, Hs.
Qed.

(** C1, as the code has it.  Submitting an invoice id that is already in the
    store starts no second execution and adds no second map entry, but it
    does replace the stored state: the id now refers to a fresh object in
    status ['pending'], built from the lines just submitted and without a
    result; the entries of the other ids are untouched. *)
Theorem resubmit_replaces_entry w args l0 :
  reachable w →
  approvals w !! invoice_id args = Some l0 →
  length (tasks (fst (call_tool "submit_invoice" args w))) = length (tasks w)
  ∧ dom (approvals (fst (call_tool "submit_invoice" args w))) = dom (approvals w)
  ∧ delete (invoice_id args) (approvals (fst (call_tool "submit_invoice" args w)))
    = delete (invoice_id args) (approvals w)
  ∧ take (length (heap w)) (heap (fst (call_tool "submit_invoice" args w))) = heap w
  ∧ l0 < length (heap w)
  ∧ approvals_get (fst (call_tool "submit_invoice" args w)) (invoice_id args)
    = Some (length (heap w),
            {| status := pending;
               invoice := {| id := invoice_id args; lines := args_lines args;
                             totalAmount := sum_amounts (args_lines args) |};
               result := None |}).
Proof.
  intros Hreach Hl0.
  destruct (store_ok_reachable w Hreach) as (S1 & _).
  destruct (executions_ok_reachable w Hreach _ _ Hl0) as (k & t & Ht & He).
  change (call_tool "submit_invoice" args w) with (submit_invoice args w).
  destruct (submit_invoice_store args w) as (Hh & Ha & _).
  split; [|split; [|split; [|split; [|split]]]].
  - unfold submit_invoice, durableProcessInvoice. simpl.
    destruct (find_execution ("invoice-" +:+ invoice_id args) (tasks w)) as [k0|] eqn:Hf;
      simpl; [by rewrite length_alter|].
    exfalso. by eapply find_execution_None.
  - rewrite Ha, dom_insert_L. apply subseteq_union_1_L, singleton_subseteq_l.
    apply elem_of_dom. by eexists.
  - rewrite Ha. apply delete_insert_eq.
  - rewrite Hh. by rewrite take_app_length.
  - destruct (S1 _ _ Hl0) as (st & Hst & _). by eapply lookup_lt_Some.
  - apply approvals_get_Some. rewrite Ha, Hh. split; [apply lookup_insert_eq|].
    by rewrite lookup_app_r, Nat.sub_diag by lia.
Qed.

(** C7.  In a reachable world [check_invoice_status] changes nothing and
    answers by what the store holds: for an id the map does not have it
    throws [Invoice <id> not found]; for an id the map has, the state object
    exists, is the one of that id, and the report gives its current status
    under the name the source uses, the total amount of its invoice, which is
    the sum of its lines, and the recorded result when there is one (an empty
    result string counts as none, as in the source's [if (state.result)]). *)
Theorem check_invoice_status_contract w args :
  reachable w →
  (approvals w !! invoice_id args = None →
   call_tool "check_invoice_status" args w
   = (w, Throw ("Invoice " +:+ invoice_id args +:+ " not found")))
  ∧ (∀ l, approvals w !! invoice_id args = Some l →
     ∃ st,
       heap w !! l = Some st
       ∧ id (invoice st) = invoice_id args
       ∧ totalAmount (invoice st) = sum_amounts (lines (invoice st))
       ∧ call_tool "check_invoice_status" args w
         = (w, Ok ("Invoice " +:+ invoice_id args +:+ ":" +:+ nl
                   +:+ "Status: "
                   +:+ match status st with
                       | pending => "pending"
                       | approved => "approved"
                       | rejected => "rejected"
                       | processing => "processing"
                       | completed => "completed"
                       end +:+ nl
                   +:+ "Total Amount: $" +:+ num_show (totalAmount (invoice st)) +:+ nl
                   +:+ match result st with
                       | None => ""
                       | Some r => if decide (r = "") then ""
                                   else nl +:+ "Result:" +:+ nl +:+ r
                       end))).
Proof.
  intros Hreach. split.
  - intros Hnone. rewrite check_report. unfold approvals_get. by rewrite Hnone.
  - intros l Hl. destruct (store_ok_reachable w Hreach) as (S1 & _).
    destruct (S1 _ _ Hl) as (st & Hst & Hid).
    exists st. split; [done|]. split; [done|].
    split; [by eapply totals_ok_reachable|].
    assert (Hg : approvals_get w (invoice_id args) = Some (l, st))
      by by apply approvals_get_Some.
    rewrite check_report, Hg. unfold status_report, result_section.
    destruct (status st), (result st) as [[|c r]|]; done.
Qed.

(** * Further properties of the server *)

(** ** The tool surface *)

Lemma tool_names :
  tool_name <$> list_tools
  = ["submit_invoice"; "approve_invoice"; "reject_invoice"; "check_invoice_status"].
Proof. reflexivity. Qed.

Lemma decision_response_known s ack args w name :
  snd (decide_invoice s ack args w) ≠ Throw ("Unknown tool: " +:+ name).
Proof.
  unfold decide_invoice.
  destruct (approvals_get w (invoice_id args)) as [[l st]|]; [|done].
  by destruct (status st).
Qed.

(** X1.  The tools the server advertises are the tools it serves: a call is
    refused with [Unknown tool: <name>] exactly when its name is not in the
    list of [ListTools]; a refused call changes nothing; and every advertised
    tool declares [invoice_id], which every handler reads, as required. *)
Theorem advertised_tools_are_served name args w :
  (name ∈ tool_name <$> list_tools
   ↔ snd (call_tool name args w) ≠ Throw ("Unknown tool: " +:+ name))
  ∧ (name ∉ tool_name <$> list_tools →
     call_tool name args w = (w, Throw ("Unknown tool: " +:+ name)))
  ∧ Forall (λ tool, "invoice_id" ∈ required_arguments (inputSchema tool)) list_tools.
Proof.
  rewrite tool_names.
  assert (Hun : name ∉ ["submit_invoice"; "approve_invoice"; "reject_invoice";
                         "check_invoice_status"] →
                call_tool name args w = (w, Throw ("Unknown tool: " +:+ name))).
  { intros Hnot. unfold call_tool.
    destruct (String.eqb_spec name "submit_invoice") as [->|_];
      [exfalso; apply Hnot; set_solver|].
    destruct (String.eqb_spec name "approve_invoice") as [->|_];
      [exfalso; apply Hnot; set_solver|].
    destruct (String.eqb_spec name "reject_invoice") as [->|_];
      [exfalso; apply Hnot; set_solver|].
    destruct (String.eqb_spec name "check_invoice_status") as [->|_];
      [exfalso; apply Hnot; set_solver | done]. }
  split; [|split; [exact Hun|]].
  - split.
    + intros Hin.
      repeat (apply elem_of_cons in Hin as [-> | Hin]);
        [| | | |by apply elem_of_nil in Hin]; unfold call_tool; simpl.
      * unfold submit_invoice. by destruct (durableProcessInvoice _ _ _).
      * apply decision_response_known.
      * apply decision_response_known.
      * unfold check_invoice_status.
        by destruct (approvals_get w (invoice_id args)) as [[l st]|].
    + intros Hresp.
      destruct (decide (name ∈ ["submit_invoice"; "approve_invoice"; "reject_invoice";
                                 "check_invoice_status"])) as [|Hnot]; [done|].
      exfalso. apply Hresp. by rewrite (Hun Hnot).
  - repeat constructor; simpl; set_solver.
Qed.

(** ** Decisions *)

Lemma decide_on_pending s ack args w l st :
  approvals_get w (invoice_id args) = Some (l, st) → status st = pending →
  decide_invoice s ack args w = (write_status l s w, Ok ack).
Proof. intros Hg Hs. unfold decide_invoice. by rewrite Hg, Hs. Qed.

(** Distinct ids have distinct objects, so a write through one id is not
    seen through another. *)
Lemma approvals_get_write_status_other w iid iid' l st s :
  store_ok w → approvals_get w iid = Some (l, st) → iid' ≠ iid →
  approvals_get (write_status l s w) iid' = approvals_get w iid'.
Proof.
  intros (S1 & _) Hg Hne. rewrite approvals_get_write_status.
  destruct (approvals_get w iid') as [[l' st']|] eqn:Hg'; simpl; [|done].
  case_decide; [|done]. subst l'. exfalso. apply Hne.
  apply approvals_get_Some in Hg as [Ha Hl].
  apply approvals_get_Some in Hg' as [Ha' Hl'].
  destruct (S1 _ _ Ha) as (st1 & Hst1 & Hid1).
  destruct (S1 _ _ Ha') as (st2 & Hst2 & Hid2). congruence.
Qed.

(** X2.  In a reachable world, [approve_invoice] or [reject_invoice] on an id
    whose status is ['pending'] answers with its acknowledgement and writes
    the decision into that entry, keeping its invoice and result; the entries
    of all other ids, the map itself, the workflows, the payment log and the
    clock stay as they were. *)
Theorem decision_on_pending w name args l st :
  reachable w →
  name = "approve_invoice" ∨ name = "reject_invoice" →
  approvals_get w (invoice_id args) = Some (l, st) →
  status st = pending →
  ∃ w',
    call_tool name args w
    = (w', Ok ("Invoice " +:+ invoice_id args
               +:+ (if String.eqb name "approve_invoice"
                    then " approved! Processing payments..." else " rejected.")))
    ∧ approvals_get w' (invoice_id args)
      = Some (l, {| status := if String.eqb name "approve_invoice"
                              then approved else rejected;
                    invoice := invoice st; result := result st |})
    ∧ (∀ iid, iid ≠ invoice_id args → approvals_get w' iid = approvals_get w iid)
    ∧ approvals w' = approvals w
    ∧ tasks w' = tasks w
    ∧ payments w' = payments w
    ∧ now w' = now w.
Proof.
  intros Hreach Hname Hg Hs. pose proof (store_ok_reachable w Hreach) as Hok.
  destruct Hname as [-> | ->]; unfold call_tool; simpl;
    unfold approve_invoice, reject_invoice;
    erewrite decide_on_pending by done;
    (eexists; split; [done|]; split;
      [by apply approvals_get_write_status_eq|];
     split; [intros iid Hne; by eapply approvals_get_write_status_other | done]).
Qed.

(** X4.  No tool call pays or moves a workflow: whatever the tool and its
    arguments, the payment log and the clock are unchanged, and every
    workflow keeps its invoice, its execution id and its place in
    [processInvoice]. *)
Theorem tool_calls_leave_workflows name args w k t :
  tasks w !! k = Some t →
  payments (fst (call_tool name args w)) = payments w
  ∧ now (fst (call_tool name args w)) = now w
  ∧ ∃ t', tasks (fst (call_tool name args w)) !! k = Some t'
          ∧ pc t' = pc t ∧ t_invoice t' = t_invoice t ∧ exec_id t' = exec_id t.
Proof.
  intros Ht. destruct (call_tool_tasks name args w) as (Hp & Hn & Hlen & Hts).
  split; [done|]. split; [done|].
  assert (Hk : k < length (tasks w)) by by eapply lookup_lt_Some.
  destruct (lookup_lt_is_Some_2 (tasks (fst (call_tool name args w))) k) as [t' Ht'];
    [lia|].
  exists t'. split; [done|].
  destruct (Hts k t' Ht') as [(t0 & Ht0 & Hpc & Hinv & He) | (-> & _)]; [|lia].
  assert (t0 = t) as -> by congruence. done.
Qed.

(** ** Payments *)

(** X5.  No payment without approval: in a reachable world, the only event
    that adds to the payment log is the resumption of a workflow, which
    invokes [processPayment] once, on a line of its own invoice, and only if
    it was already in its payment loop or has just read ['approved'] as the
    stored status of its invoice. *)
Theorem payment_needs_approval w e w' :
  reachable w →
  step e w = Some w' →
  payments w' ≠ payments w →
  ∃ k t line,
    e = Run k
    ∧ tasks w !! k = Some t
    ∧ payments w' = payments w ++ [(k, line)]
    ∧ line ∈ lines (t_invoice t)
    ∧ ((∃ l results current rest readyAt,
          pc t = Paying l results current rest readyAt)
       ∨ ((∃ startTime wakeAt, pc t = Sleeping startTime wakeAt)
          ∧ stored_status w (id (t_invoice t)) = Some approved)).
Proof.
  intros Hreach Hstep Hpay. destruct e as [name args|d|k]; simpl in Hstep.
  - injection Hstep as <-. destruct (call_tool_tasks name args w) as (Hp & _). done.
  - destruct (0 <=? d)%Z; [|done]. by injection Hstep as <-.
  - destruct (tasks w !! k) as [t|] eqn:Ht;
      [|unfold run_task in Hstep; by rewrite Ht in Hstep].
    destruct (payments_ok_reachable w Hreach) as [Hts _].
    specialize (Hts k t Ht).
    unfold run_task in Hstep. rewrite Ht in Hstep. simpl in Hstep.
    assert (Hgate : w' = after_gate k (t_invoice t) w →
      ∃ line, payments w' = payments w ++ [(k, line)]
              ∧ line ∈ lines (t_invoice t)
              ∧ stored_status w (id (t_invoice t)) = Some approved).
    { intros ->. unfold after_gate in *. unfold stored_status.
      destruct (approvals_get w (id (t_invoice t))) as [[l st]|]; [|done].
      destruct (status st) eqn:Hs; try done. unfold pay_loop, finish in *.
      destruct (lines (t_invoice t)) as [|line rest]; [done|].
      exists line. simpl. rewrite Hs. split; [done|]. split; [set_solver | done]. }
    destruct (pc t) as [|s u|l results line rest u|r] eqn:Hpc.
    + injection Hstep as <-. rewrite start_sleeps in Hpay.
      by destruct (approvals_get w (id (t_invoice t))) as [[l st]|].
    + destruct (_ <=? _)%Z; [|done]. injection Hstep as Hw. symmetry in Hw.
      assert (∃ line, payments w' = payments w ++ [(k, line)]
                      ∧ line ∈ lines (t_invoice t)
                      ∧ stored_status w (id (t_invoice t)) = Some approved)
        as (line & H1 & H2 & H3).
      { unfold poll_loop in Hw. destruct (_ <? _)%Z; [|by apply Hgate].
        destruct (status ∘ snd <$> approvals_get w (id (t_invoice t))) as [[]|];
          first [by apply Hgate | by subst w']. }
      exists k, t, line. repeat split; try done. right. split; [by eauto | done].
    + destruct (_ <=? _)%Z; [|done]. injection Hstep as <-.
      unfold pay_loop, finish in *. destruct rest as [|line' rest']; [done|].
      exists k, t, line'. repeat split; try done.
      * simpl in Hts. destruct Hts as (dn & -> & _). set_solver.
      * left. by eauto 6.
    + destruct (callbacks t) as [|iid cbs]; [done|]. injection Hstep as <-.
      unfold store_result in Hpay. rewrite approvals_get_set_tasks in Hpay.
      by destruct (approvals_get w iid) as [[l st]|].
Qed.

(** X6.  Every line is paid at most once and in order: in a reachable world
    the payments a workflow has invoked are an initial segment of the line
    items of its invoice, and a task index without a workflow has none. *)
Theorem paid_lines_are_a_prefix w k :
  reachable w →
  match tasks w !! k with
  | Some t => paid w k `prefix_of` lines (t_invoice t)
  | None => paid w k = []
  end.
Proof.
  intros Hreach. destruct (payments_ok_reachable w Hreach) as [Hts Hb].
  destruct (tasks w !! k) as [t|] eqn:Ht.
  - specialize (Hts k t Ht). destruct (pc t) as [|s u|l results line rest u|r];
      simpl in Hts.
    + rewrite Hts. apply prefix_nil.
    + rewrite Hts. apply prefix_nil.
    + destruct Hts as (dn & -> & -> & _). exists rest. by rewrite <- app_assoc.
    + destruct Hts as [[_ ->] | [_ ->]]; [apply prefix_nil | done].
  - apply paid_unborn; [done|]. by apply lookup_ge_None.
Qed.

(** X13.  What a workflow can return: in a reachable world a returned value
    is [REJECTED by user], [REJECTED due to timeout], [REJECTED], or
    [COMPLETED] followed by the payment confirmations of all its lines; in
    the first three cases nothing was paid, in the last every line was. *)
Theorem workflow_results w k t r :
  reachable w →
  tasks w !! k = Some t →
  pc t = Returned r →
  (r = "REJECTED by user" ∨ r = "REJECTED due to timeout" ∨ r = "REJECTED")
  ∧ paid w k = []
  ∨ r = "COMPLETED" +:+ nl +:+ String.concat nl (processPayment <$> lines (t_invoice t))
    ∧ paid w k = lines (t_invoice t).
Proof.
  intros Hreach Ht Hpc. destruct (payments_ok_reachable w Hreach) as [Hts _].
  specialize (Hts k t Ht). by rewrite Hpc in Hts.
Qed.

(** ** The store over time *)

Lemma reachable_exec es w w' : reachable w → exec es w = Some w' → reachable w'.
Proof.
  intros (z0 & es0 & H0) Hes. exists z0, (es0 ++ es). by rewrite exec_app, H0.
Qed.

Lemma known_after_step e w w' iid :
  step e w = Some w' → is_Some (approvals w !! iid) → is_Some (approvals w' !! iid).
Proof.
  intros Hstep Hk. destruct e as [name args|d|k]; simpl in Hstep.
  - injection Hstep as <-. rewrite call_tool_approvals.
    destruct (String.eqb name "submit_invoice"); [|done].
    destruct (decide (invoice_id args = iid)) as [<-|Hne].
    + rewrite lookup_insert_eq. by eexists.
    + by rewrite lookup_insert_ne.
  - destruct (0 <=? d)%Z; [|done]. by injection Hstep as <-.
  - destruct (tasks w !! k) as [t|] eqn:Ht;
      [|unfold run_task in Hstep; by rewrite Ht in Hstep].
    destruct (run_task_frame w k t w' Ht Hstep) as (_ & _ & _ & _ & _ & _ & _ & HA & _).
    by rewrite HA.
Qed.

Lemma known_after_exec es w w' iid :
  exec es w = Some w' → is_Some (approvals w !! iid) → is_Some (approvals w' !! iid).
Proof.
  revert w. induction es as [|e es IH]; intros w; simpl.
  - by intros [= <-].
  - destruct (step e w) as [w1|] eqn:Hstep; [|done]. simpl. intros Hes Hk.
    apply (IH w1 Hes). by eapply known_after_step.
Qed.

(** X7.  Nothing deletes an invoice: once an id is in the store of a
    reachable world it stays there through every later sequence of events,
    so [check_invoice_status] on it answers with a report and never with
    [not found]. *)
Theorem known_ids_stay_known w es w' args :
  reachable w →
  exec es w = Some w' →
  is_Some (approvals w !! invoice_id args) →
  ∃ l st,
    approvals_get w' (invoice_id args) = Some (l, st)
    ∧ call_tool "check_invoice_status" args w'
      = (w', Ok (status_report (invoice_id args) st)).
Proof.
  intros Hreach Hes Hk.
  destruct (known_after_exec es w w' _ Hes Hk) as [l Hl].
  destruct (store_ok_reachable w' (reachable_exec es w w' Hreach Hes)) as (S1 & _).
  destruct (S1 _ _ Hl) as (st & Hst & _).
  assert (Hg : approvals_get w' (invoice_id args) = Some (l, st))
    by by apply approvals_get_Some.
  exists l, st. split; [done|]. by rewrite check_report, Hg.
Qed.

(** X8.  The invoice of an entry is never modified: every event other than a
    [submit_invoice] for the same id leaves the id on the same state object
    with the same invoice (id, lines, total amount); only its status and
    result may differ. *)
Theorem stored_invoice_is_stable w e w' iid l st :
  step e w = Some w' →
  (∀ args, e = Call "submit_invoice" args → invoice_id args ≠ iid) →
  approvals_get w iid = Some (l, st) →
  ∃ st', approvals_get w' iid = Some (l, st') ∧ invoice st' = invoice st.
Proof.
  intros Hstep Hsub Hg. apply approvals_get_Some in Hg as [Ha Hl].
  destruct e as [name args|d|k]; simpl in Hstep.
  - injection Hstep as <-.
    destruct (call_tool_objects name args w l st Hl) as (st' & Hl' & Hinv & _).
    exists st'. split; [|done]. apply approvals_get_Some. split; [|done].
    rewrite call_tool_approvals.
    destruct (String.eqb_spec name "submit_invoice") as [->|_]; [|done].
    rewrite lookup_insert_ne; [done|]. by apply Hsub.
  - destruct (0 <=? d)%Z; [|done]. injection Hstep as <-.
    exists st. split; [|done]. by apply approvals_get_Some.
  - destruct (tasks w !! k) as [t|] eqn:Ht;
      [|unfold run_task in Hstep; by rewrite Ht in Hstep].
    destruct (run_task_frame w k t w' Ht Hstep) as (_ & _ & _ & _ & _ & _ & _ & HA & _).
    destruct (run_task_objects w k t w' l st Ht Hstep Hl) as (st' & Hl' & Hinv & _).
    exists st'. split; [|done]. apply approvals_get_Some. by rewrite HA.
Qed.

Lemma tasks_known_step e w w' : tasks_known w → step e w = Some w' → tasks_known w'.
Proof.
  intros Hok Hstep k t' Ht'. destruct e as [name args|d|k0]; simpl in Hstep.
  - injection Hstep as <-.
    destruct (call_tool_tasks name args w) as (_ & _ & _ & Hts).
    destruct (Hts k t' Ht') as [(t & Ht & _ & -> & _) | (_ & _ & -> & -> & _)].
    + eapply (known_after_step (Call name args)); [done | by eapply Hok].
    + rewrite call_tool_approvals. simpl. rewrite lookup_insert_eq. by eexists.
  - destruct (0 <=? d)%Z; [|done]. injection Hstep as <-. by eapply Hok.
  - destruct (tasks w !! k0) as [t0|] eqn:Ht0;
      [|unfold run_task in Hstep; by rewrite Ht0 in Hstep].
    destruct (run_task_frame w k0 t0 w' Ht0 Hstep)
      as (tk & extra & HT & Hinv & _ & _ & _ & HA & _).
    rewrite HA. rewrite HT in Ht'. destruct (decide (k0 = k)) as [<-|Hne].
    + rewrite list_lookup_insert_eq in Ht' by by eapply lookup_lt_Some.
      injection Ht' as <-. rewrite Hinv. by eapply Hok.
    + rewrite list_lookup_insert_ne in Ht' by done. by eapply Hok.
Qed.

Lemma tasks_known_reachable w : reachable w → tasks_known w.
Proof.
  apply reachable_invariant.
  - by intros z0 [].
  - intros e w0 w' _. apply tasks_known_step.
Qed.

(** An id the store does not have has no execution yet, so its submission
    starts one. *)
Lemma submit_fresh_id w args :
  reachable w →
  approvals w !! invoice_id args = None →
  tasks (fst (call_tool "submit_invoice" args w))
  = tasks w ++ [{| exec_id := "invoice-" +:+ invoice_id args;
                   t_invoice := {| id := invoice_id args; lines := args_lines args;
                                   totalAmount := sum_amounts (args_lines args) |};
                   pc := NotStarted;
                   callbacks := [invoice_id args] |}]
  ∧ approvals_get (fst (call_tool "submit_invoice" args w)) (invoice_id args)
    = Some (length (heap w),
            {| status := pending;
               invoice := {| id := invoice_id args; lines := args_lines args;
                             totalAmount := sum_amounts (args_lines args) |};
               result := None |})
  ∧ payments (fst (call_tool "submit_invoice" args w)) = payments w.
Proof.
  intros Hreach Hnew.
  destruct (store_ok_reachable w Hreach) as (_ & S2 & _).
  pose proof (tasks_known_reachable w Hreach) as Hknown.
  assert (Hf : find_execution ("invoice-" +:+ invoice_id args) (tasks w) = None).
  { destruct (find_execution _ (tasks w)) as [k|] eqn:Hf; [|done]. exfalso.
    destruct (find_execution_Some _ _ _ Hf) as (t & Ht & He).
    rewrite (S2 k t Ht) in He. apply append_inj_l in He.
    destruct (Hknown k t Ht) as [l Hl]. congruence. }
  change (call_tool "submit_invoice" args w) with (submit_invoice args w).
  destruct (submit_invoice_store args w) as (Hh & Ha & Hp & _).
  split; [|split; [|done]].
  - unfold submit_invoice, durableProcessInvoice. simpl. rewrite Hf. simpl.
    rewrite sum_amounts_fold. fold (sum_amounts (args_lines args)).
    apply list_eq. intros j.
    destruct (decide (length (tasks w) = j)) as [<-|Hne].
    + rewrite list_lookup_alter_eq, !lookup_app_r, Nat.sub_diag by lia. done.
    + rewrite list_lookup_alter_ne by done.
      destruct (decide (j < length (tasks w))).
      * by rewrite !lookup_app_l.
      * rewrite !lookup_app_r by lia.
        destruct (j - length (tasks w)) as [|m] eqn:Hd; [lia | done].
  - apply approvals_get_Some. rewrite Ha, Hh. split; [apply lookup_insert_eq|].
    by rewrite lookup_app_r, Nat.sub_diag by lia.
Qed.

(** X14.  The first submission of an id: in a reachable world whose store
    does not have the id, [submit_invoice] adds exactly one execution, keyed
    [invoice-<id>], for the invoice just built, not yet started and with the
    one callback of this call waiting; the id refers to a fresh pending entry
    for that invoice; the other workflows and the payment log are untouched. *)
Theorem first_submission_starts_workflow w args :
  reachable w →
  approvals w !! invoice_id args = None →
  tasks (fst (call_tool "submit_invoice" args w))
  = tasks w ++ [{| exec_id := "invoice-" +:+ invoice_id args;
                   t_invoice := {| id := invoice_id args; lines := args_lines args;
                                   totalAmount := sum_amounts (args_lines args) |};
                   pc := NotStarted;
                   callbacks := [invoice_id args] |}]
  ∧ approvals_get (fst (call_tool "submit_invoice" args w)) (invoice_id args)
    = Some (length (heap w),
            {| status := pending;
               invoice := {| id := invoice_id args; lines := args_lines args;
                             totalAmount := sum_amounts (args_lines args) |};
               result := None |})
  ∧ payments (fst (call_tool "submit_invoice" args w)) = payments w.
Proof. apply submit_fresh_id. Qed.

(** X12.  An invoice nobody decides on is rejected by the timeout: when a new
    id is submitted in a reachable world and its workflow, undisturbed, runs
    each poll as its one-second sleep ends, the 300th poll, five minutes
    after the start, rejects; once the callback has run the status report
    shows [rejected] with the total of the submitted lines and the reason
    [REJECTED due to timeout], and nothing was paid. *)
Theorem submitted_invoice_times_out w args :
  reachable w →
  approvals w !! invoice_id args = None →
  ∃ w',
    exec (Call "submit_invoice" args :: Run (length (tasks w))
          :: poll_schedule (length (tasks w)) 299
             ++ [Tick pollInterval; Run (length (tasks w)); Run (length (tasks w))]) w
    = Some w'
    ∧ payments w' = payments w
    ∧ call_tool "check_invoice_status" args w'
      = (w', Ok ("Invoice " +:+ invoice_id args +:+ ":" +:+ nl
                 +:+ "Status: rejected" +:+ nl
                 +:+ "Total Amount: $" +:+ num_show (sum_amounts (args_lines args)) +:+ nl
                 +:+ nl +:+ "Result:" +:+ nl +:+ "REJECTED due to timeout")).
Proof.
  intros Hreach Hnew.
  destruct (submit_fresh_id w args Hreach Hnew) as (Htasks & Hg & Hpay).
  set (w1 := fst (call_tool "submit_invoice" args w)) in *.
  set (inv0 := {| id := invoice_id args; lines := args_lines args;
                  totalAmount := sum_amounts (args_lines args) |}) in *.
  assert (Ht : tasks w1 !! length (tasks w)
               = Some {| exec_id := "invoice-" +:+ invoice_id args; t_invoice := inv0;
                         pc := NotStarted; callbacks := [invoice_id args] |}).
  { by rewrite Htasks, lookup_app_r, Nat.sub_diag by lia. }
  destruct (undecided_invoice_times_out w1 (length (tasks w)) _ [] _ _ (args_lines args)
              Ht eq_refl eq_refl Hg) as (w' & Hex & Hp & Hcheck).
  exists w'. split; [exact Hex|]. split; [by rewrite Hp|].
  destruct args as [iid ls]. exact Hcheck.
Qed.

(** ** Decisions over time *)

Lemma forward_decided s s' : forward s s' → s ≠ pending → s' ≠ pending.
Proof.
  intros Hf. induction Hf as [|x y z Htr _ IH]; [done|].
  intros _. apply IH. by inversion Htr.
Qed.

Lemma advances_started inv p p' extra : advances inv p p' extra → p' ≠ NotStarted.
Proof.
  destruct 1; try done; unfold pay_pc.
  - by destruct (lines inv).
  - by destruct rest.
Qed.

Lemma started_step e w w' iid :
  workflows_started w iid → ¬ resubmits iid e → step e w = Some w' →
  workflows_started w' iid.
Proof.
  intros Hs Hne Hstep k t' Ht' Hid. destruct e as [name args|d|k0]; simpl in Hstep.
  - injection Hstep as <-.
    destruct (call_tool_tasks name args w) as (_ & _ & _ & Hts).
    destruct (Hts k t' Ht') as [(t & Ht & -> & Hinv & _) | (_ & _ & Hname & Hid' & _)].
    + apply (Hs k t Ht). by rewrite <- Hinv.
    + exfalso. apply Hne. simpl. split; [done | congruence].
  - destruct (0 <=? d)%Z; [|done]. injection Hstep as <-. by apply (Hs k t').
  - destruct (tasks w !! k0) as [t0|] eqn:Ht0;
      [|unfold run_task in Hstep; by rewrite Ht0 in Hstep].
    destruct (run_task_frame w k0 t0 w' Ht0 Hstep)
      as (tk & extra & HT & _ & _ & Hadv & _).
    rewrite HT in Ht'. destruct (decide (k0 = k)) as [<-|Hne'].
    + rewrite list_lookup_insert_eq in Ht' by by eapply lookup_lt_Some.
      injection Ht' as <-. by eapply advances_started.
    + rewrite list_lookup_insert_ne in Ht' by done. by apply (Hs k t').
Qed.

Lemma started_quiet e w iid :
  workflows_started w iid → ¬ resubmits iid e → ¬ writes_pending e w iid.
Proof.
  intros Hs Hne. destruct e as [name args|d|k]; simpl; [done | tauto |].
  intros (t & Ht & Hpc & Hid). by apply (Hs k t Ht Hid).
Qed.

(** One event moves the status of an id forward unless it writes
    ['pending']. *)
Lemma event_moves_status_forward w e w' iid s :
  reachable w →
  step e w = Some w' →
  ¬ writes_pending e w iid →
  stored_status w iid = Some s →
  ∃ s', stored_status w' iid = Some s' ∧ forward s s'.
Proof.
  intros Hreach Hstep Hnw Hs.
  destruct (store_ok_reachable w Hreach) as (S1 & S2 & S3 & S4).
  apply stored_status_Some in Hs as (l & st & Ha & Hl & <-).
  destruct e as [name args|d|k]; simpl in Hstep.
  - injection Hstep as <-.
    destruct (call_tool_objects name args w l st Hl) as (st' & Hl' & _ & Hcase).
    exists (status st'). split.
    + apply stored_status_Some. exists l, st'. split; [|done].
      rewrite call_tool_approvals.
      destruct (String.eqb_spec name "submit_invoice") as [->|_]; [|done].
      rewrite lookup_insert_ne; [done|]. intros Heq. apply Hnw. by split.
    + destruct Hcase as [-> | (-> & _ & [-> | ->])].
      * apply forward_refl.
      * apply forward_once, tr_approve.
      * apply forward_once, tr_reject.
  - destruct (0 <=? d)%Z; [|done]. injection Hstep as <-.
    exists (status st). split; [|apply forward_refl].
    apply stored_status_Some. by exists l, st.
  - destruct (tasks w !! k) as [t|] eqn:Ht;
      [|unfold run_task in Hstep; by rewrite Ht in Hstep].
    destruct (run_task_frame w k t w' Ht Hstep) as (_ & _ & _ & _ & _ & _ & _ & HA & _).
    destruct (run_task_objects w k t w' l st Ht Hstep Hl) as (st' & Hl' & _ & Hcase).
    exists (status st'). split.
    { apply stored_status_Some. exists l, st'. by rewrite HA. }
    destruct Hcase as
      [-> | [(Hpc & Hak & _) | [(_ & _ & [[-> ->] | [-> [-> | ->]]])
                               | (r0 & l0 & rs0 & z0 & Hpc & ->)]]].
    + apply forward_refl.
    + exfalso. apply Hnw. exists t. split; [done|]. split; [done|].
      destruct (S1 _ l Ha) as (st1 & Hst1 & Hid1).
      destruct (S1 _ l Hak) as (st2 & Hst2 & Hid2). congruence.
    + apply forward_once, tr_reject.
    + apply forward_once, tr_process.
    + eapply rtc_l; [apply tr_process | apply forward_once, tr_complete].
    + destruct (S4 k t l r0 l0 rs0 z0 Ht Hpc) as (st1 & Hst1 & Hs1 & _).
      assert (st1 = st) as -> by congruence. rewrite Hs1.
      apply forward_once, tr_complete.
Qed.

Lemma status_forward_exec iid es :
  ∀ w w' s,
    reachable w →
    workflows_started w iid →
    Forall (λ ev, ¬ resubmits iid ev) es →
    exec es w = Some w' →
    stored_status w iid = Some s →
    ∃ s', stored_status w' iid = Some s' ∧ forward s s'.
Proof.
  induction es as [|e es IH]; intros w w' s Hreach Hst Hall Hex Hs.
  - injection Hex as <-. exists s. split; [done | apply forward_refl].
  - apply Forall_cons in Hall as [He Hall]. simpl in Hex.
    destruct (step e w) as [w1|] eqn:Hstep; [|done]. simpl in Hex.
    destruct (event_moves_status_forward w e w1 iid s Hreach Hstep
                (started_quiet e w iid Hst He) Hs) as (s1 & Hs1 & Hf1).
    destruct (IH w1 w' s1) as (s' & Hs' & Hf'); try done.
    + apply (reachable_exec [e] w w1 Hreach). simpl. by rewrite Hstep.
    + by eapply started_step.
    + exists s'. split; [done|]. unfold forward in *. by etrans.
Qed.

(** X3.  The first decision wins: in a reachable world in which the
    workflows of an id have started, once [approve_invoice] or
    [reject_invoice] has been accepted for the pending id, and whatever
    happens next short of a [submit_invoice] for that id, a further decision
    on the id, of either kind, changes nothing and throws [is not pending]
    with the status the entry then has, which is the first decision or a
    status that follows it in the diagram. *)
Theorem first_decision_wins w first second args args' es w' :
  reachable w →
  first = "approve_invoice" ∨ first = "reject_invoice" →
  second = "approve_invoice" ∨ second = "reject_invoice" →
  invoice_id args' = invoice_id args →
  stored_status w (invoice_id args) = Some pending →
  workflows_started w (invoice_id args) →
  Forall (λ ev, ¬ resubmits (invoice_id args) ev) es →
  exec es (fst (call_tool first args w)) = Some w' →
  ∃ s,
    stored_status w' (invoice_id args) = Some s
    ∧ forward (if String.eqb first "approve_invoice" then approved else rejected) s
    ∧ call_tool second args' w'
      = (w', Throw ("Invoice " +:+ invoice_id args +:+ " is not pending (status: "
                    +:+ status_text s +:+ ")")).
Proof.
  intros Hreach Hfirst Hsecond Hid Hst Hstarted Hall Hex.
  set (w1 := fst (call_tool first args w)) in *.
  set (d := if String.eqb first "approve_invoice" then approved else rejected).
  assert (Hnot : ¬ resubmits (invoice_id args) (Call first args)).
  { intros [Hname _]. destruct Hfirst as [-> | ->]; discriminate Hname. }
  assert (Hr1 : reachable w1) by by apply (reachable_exec [Call first args] w).
  assert (Hst1 : workflows_started w1 (invoice_id args))
    by by apply (started_step (Call first args) w).
  assert (Hs1 : stored_status w1 (invoice_id args) = Some d ∧ d ≠ pending).
  { apply stored_status_Some in Hst as (l & st & Ha & Hl & Hs0).
    assert (Hg : approvals_get w (invoice_id args) = Some (l, st))
      by by apply approvals_get_Some.
    unfold w1, d. destruct Hfirst as [-> | ->]; unfold call_tool; simpl;
      unfold approve_invoice, reject_invoice;
      erewrite decide_on_pending by done; simpl;
      (split; [by eapply stored_status_write_status_eq | done]). }
  destruct Hs1 as [Hs1 Hd].
  destruct (status_forward_exec (invoice_id args) es w1 w' d Hr1 Hst1 Hall Hex Hs1)
    as (s & Hs & Hf).
  exists s. split; [done|]. split; [done|].
  rewrite decision_throws; [| done |].
  - rewrite Hid. apply stored_status_Some in Hs as (l & st & Ha & Hl & <-).
    assert (Hg : approvals_get w' (invoice_id args) = Some (l, st))
      by by apply approvals_get_Some.
    by rewrite Hg.
  - rewrite Hid, Hs. intros [= Hp]. by apply (forward_decided d s Hf Hd).
Qed.

(** ** The gate at its edges *)

(** X11.  The first block of a workflow never decides: it writes ['pending']
    into the entry of its invoice id, whatever status a decision that was
    handled earlier had left there, notes the current time as its start and
    goes to sleep for one poll interval; it returns nothing and pays
    nothing. *)
Theorem first_block_resets_and_sleeps w k t l st :
  tasks w !! k = Some t →
  pc t = NotStarted →
  approvals_get w (id (t_invoice t)) = Some (l, st) →
  ∃ w',
    run_task k w = Some w'
    ∧ approvals_get w' (id (t_invoice t))
      = Some (l, {| status := pending; invoice := invoice st; result := result st |})
    ∧ tasks w' !! k = Some (with_pc (Sleeping (now w) (now w + pollInterval)) t)
    ∧ payments w' = payments w
    ∧ approvals w' = approvals w
    ∧ now w' = now w.
Proof.
  intros Ht Hpc Hg. eexists. split.
  { unfold run_task. rewrite Ht. simpl. rewrite Hpc, start_sleeps. by rewrite Hg. }
  split; [|split; [|done]].
  - rewrite approvals_get_set_pc. by apply approvals_get_write_status_eq.
  - by apply tasks_set_pc.
Qed.

(** X9.  No premature timeout: a workflow that starts on an undecided invoice
    and is then polled [n] times, one second apart, with [n] seconds short
    of five minutes, is still asleep after the last of these polls; the
    status is still ['pending'] and nothing was paid. *)
Theorem no_premature_timeout w k t l st n :
  tasks w !! k = Some t →
  pc t = NotStarted →
  approvals_get w (id (t_invoice t)) = Some (l, st) →
  (Z.of_nat n * pollInterval < timeout)%Z →
  ∃ w',
    exec (Run k :: poll_schedule k n) w = Some w'
    ∧ stored_status w' (id (t_invoice t)) = Some pending
    ∧ tasks w' !! k = Some (with_pc (Sleeping (now w) (now w' + pollInterval)) t)
    ∧ now w' = (now w + Z.of_nat n * pollInterval)%Z
    ∧ payments w' = payments w.
Proof.
  intros Ht Hpc Hg Hn.
  set (w1 := set_pc k (Sleeping (now w) (now w + pollInterval))
               (write_status l pending w)).
  assert (Hrun : run_task k w = Some w1).
  { unfold run_task. rewrite Ht. simpl. rewrite Hpc, start_sleeps. by rewrite Hg. }
  assert (Hs1 : stored_status w1 (id (t_invoice t)) = Some pending).
  { unfold w1. rewrite stored_status_set_pc. by eapply stored_status_write_status_eq. }
  destruct (polls_keep_sleeping k n w1
              (with_pc (Sleeping (now w) (now w + pollInterval)) t) (now w))
    as (w2 & Hex & Ht2 & Hn2 & Hh2 & Ha2 & Hp2).
  { unfold w1. by apply tasks_set_pc. }
  { done. }
  { done. }
  { simpl. lia. }
  exists w2. split; [by rewrite (exec_run k _ w w1 Hrun)|].
  split; [|split; [exact Ht2 | split; [exact Hn2 | by rewrite Hp2]]].
  apply stored_status_Some in Hs1 as (l1 & st1 & H1 & H2 & H3).
  apply stored_status_Some. exists l1, st1. by rewrite Ha2, Hh2.
Qed.

(** X10.  A poll past the deadline that finds a status other than
    ['pending'] and ['approved'] (a rejection that came in after the last
    poll, for one) returns the plain [REJECTED], which is neither of the two
    reasons of a rejection seen in time or of a timeout; it writes nothing,
    and once its callback has run the status report shows the unchanged
    status with the result [REJECTED]. *)
Theorem late_poll_returns_plain_rejected w k t startTime wakeAt l st ls :
  reachable w →
  tasks w !! k = Some t →
  pc t = Sleeping startTime wakeAt →
  (wakeAt ≤ now w)%Z →
  (timeout ≤ now w - startTime)%Z →
  approvals_get w (id (t_invoice t)) = Some (l, st) →
  status st ≠ pending →
  status st ≠ approved →
  ∃ w2,
    run_task k w = Some (set_pc k (Returned "REJECTED") w)
    ∧ run_task k (set_pc k (Returned "REJECTED") w) = Some w2
    ∧ approvals_get w2 (id (t_invoice t))
      = Some (l, {| status := status st; invoice := invoice st;
                    result := Some "REJECTED" |})
    ∧ payments w2 = payments w
    ∧ call_tool "check_invoice_status"
        {| invoice_id := id (t_invoice t); args_lines := ls |} w2
      = (w2, Ok ("Invoice " +:+ id (t_invoice t) +:+ ":" +:+ nl
                 +:+ "Status: " +:+ status_text (status st) +:+ nl
                 +:+ "Total Amount: $" +:+ num_show (totalAmount (invoice st)) +:+ nl
                 +:+ nl +:+ "Result:" +:+ nl +:+ "REJECTED")).
Proof.
  intros Hreach Ht Hpc Hwake Hlate Hg Hnp Hna.
  destruct (next_callback w k t Hreach Ht) as [cbs Hcb]; [by rewrite Hpc|].
  assert (Hrun : run_task k w = Some (set_pc k (Returned "REJECTED") w)).
  { erewrite run_sleeping by done. rewrite poll_loop_expired by done.
    unfold after_gate. rewrite Hg. by destruct (status st). }
  destruct (returned_then_reported (set_pc k (Returned "REJECTED") w) k
              (with_pc (Returned "REJECTED") t) "REJECTED" cbs l st ls)
    as (w2 & Hrun2 & Hg2 & Hp2 & Hcheck); try done.
  { by apply tasks_set_pc. }
  exists w2. split; [done|]. split; [done|]. split; [exact Hg2|].
  split; [exact Hp2 | exact Hcheck].
Qed.

End Proofs.

(** * The concrete session *)

Lemma after_reachable (es : list (Event (num := Z))) w :
  exec es (init 0) = Some w → reachable (after es).
Proof. intros Hes. exists 0%Z, es. unfold after. by rewrite Hes. Qed.

(** The end-to-end scenario of the specification: INV-1 with consulting 100
    and expenses 50 is acknowledged with total 150 and shows as pending. *)
Example scenario_submitted :
  snd (call_tool "submit_invoice" inv1 (init 0))
  = Ok ("Invoice INV-1 submitted for approval. Total: $150" +:+ nl
        +:+ "Use approve_invoice or reject_invoice to respond.")
  ∧ snd (call_tool "check_invoice_status" inv1 (after session_submitted))
    = Ok ("Invoice INV-1:" +:+ nl +:+ "Status: pending" +:+ nl
          +:+ "Total Amount: $150" +:+ nl).
Proof. split; vm_compute; reflexivity. Qed.

(** Once approved and processed, the status is completed and the result
    lists the two payment confirmations in the submitted order. *)
Example scenario_completed :
  snd (call_tool "check_invoice_status" inv1 (after session_completed))
  = Ok ("Invoice INV-1:" +:+ nl +:+ "Status: completed" +:+ nl
        +:+ "Total Amount: $150" +:+ nl +:+ nl +:+ "Result:" +:+ nl
        +:+ "COMPLETED" +:+ nl
        +:+ "Processed payment for consulting: $100" +:+ nl
        +:+ "Processed payment for expenses: $50").
Proof. vm_compute. reflexivity. Qed.

(** An invoice nobody decides on: after 300 polls, five minutes after the
    start of its workflow, it is rejected by the timeout. *)
Example scenario_timed_out :
  (λ w, snd (call_tool "check_invoice_status" inv1 w))
    <$> exec (Call "submit_invoice" inv1 :: Run 0
              :: poll_schedule 0 299 ++ [Tick pollInterval; Run 0; Run 0]) (init 0)
  = Some (Ok ("Invoice INV-1:" +:+ nl +:+ "Status: rejected" +:+ nl
              +:+ "Total Amount: $150" +:+ nl +:+ nl +:+ "Result:" +:+ nl
              +:+ "REJECTED due to timeout")).
Proof. vm_compute. reflexivity. Qed.

(** An unknown id is reported as not found by each of the three tools that
    look one up. *)
Example scenario_unknown_id :
  snd (call_tool "check_invoice_status" inv1 (init 0)) = Throw "Invoice INV-1 not found"
  ∧ snd (call_tool "approve_invoice" inv1 (init 0)) = Throw "Invoice INV-1 not found"
  ∧ snd (call_tool "reject_invoice" inv1 (init 0)) = Throw "Invoice INV-1 not found"
  ∧ snd (call_tool "pay_invoice" inv1 (init 0)) = Throw "Unknown tool: pay_invoice".
Proof. repeat split; vm_compute; reflexivity. Qed.

(** An approved invoice without lines completes at its next poll.  Between
    the return of the workflow and its callback the recorded result is the
    empty string, which the status report does not print. *)
Example scenario_no_lines :
  (λ w, (result ∘ snd <$> approvals_get w "INV-0",
         snd (call_tool "check_invoice_status" empty_invoice w)))
    <$> exec [Call "submit_invoice" empty_invoice; Run 0;
              Call "approve_invoice" empty_invoice; Tick pollInterval; Run 0] (init 0)
  = Some (Some (Some ""),
          Ok ("Invoice INV-0:" +:+ nl +:+ "Status: completed" +:+ nl
              +:+ "Total Amount: $0" +:+ nl))
  ∧ (λ w, snd (call_tool "check_invoice_status" empty_invoice w))
      <$> exec [Call "submit_invoice" empty_invoice; Run 0;
                Call "approve_invoice" empty_invoice; Tick pollInterval; Run 0; Run 0]
            (init 0)
    = Some (Ok ("Invoice INV-0:" +:+ nl +:+ "Status: completed" +:+ nl
                +:+ "Total Amount: $0" +:+ nl +:+ nl +:+ "Result:" +:+ nl
                +:+ "COMPLETED" +:+ nl)).
Proof. split; vm_compute; reflexivity. Qed.

(** On integers the total is the sum of the amounts in the usual sense. *)
Lemma sum_amounts_Z (ls : list (InvoiceLine (num := Z))) :
  sum_amounts ls = foldr Z.add 0%Z (amount <$> ls).
Proof.
  unfold sum_amounts. simpl.
  assert (Hacc : ∀ (zs : list Z) (a : Z),
            fold_left Z.add zs a = (a + foldr Z.add 0 zs)%Z).
  { induction zs as [|z zs IH]; intros a; simpl; [lia|]. rewrite IH. lia. }
  by rewrite Hacc.
Qed.

(** The start-up reset of line 91 is a real write: a workflow that starts
    only after the approval was handled sets the status back to pending. *)
Example late_start_resets_approval :
  status_after [Call "submit_invoice" inv1; Call "approve_invoice" inv1] "INV-1"
  = Some (Some approved)
  ∧ status_after [Call "submit_invoice" inv1; Call "approve_invoice" inv1; Run 0] "INV-1"
    = Some (Some pending).
Proof. split; vm_compute; reflexivity. Qed.

(** Counterexample to C1 as stated: INV-1 is submitted and approved; a second
    [submit_invoice] with the same id does not return the state of the first
    submission, it replaces the approved state by a fresh pending one. *)
Lemma resubmit_discards_state :
  status_after session_approved "INV-1" = Some (Some approved)
  ∧ status_after (session_approved ++ [Call "submit_invoice" inv1]) "INV-1"
    = Some (Some pending).
Proof. split; vm_compute; reflexivity. Qed.

(** Counterexample to C6 as stated: INV-1 runs to completion; submitting the
    same id again moves the stored status from completed, a terminal state,
    back to pending. *)
Lemma resubmit_moves_status_back :
  status_after session_completed "INV-1" = Some (Some completed)
  ∧ status_after (session_completed ++ [Call "submit_invoice" inv1]) "INV-1"
    = Some (Some pending)
  ∧ ¬ forward completed pending.
Proof.
  split; [vm_compute; reflexivity|]. split; [vm_compute; reflexivity|].
  intros Hf. apply rtc_inv in Hf as [Heq | (s & Htr & _)]; [done | inversion Htr].
Qed.

(** ** The theorems at work *)

Lemma resubmit_replaces_entry_witness :
  approvals_get (fst (call_tool "submit_invoice" inv1 (after session_approved))) "INV-1"
  = Some (1, inv1_state pending None).
Proof.
  assert (Hr : reachable (after session_approved))
    by by apply (after_reachable session_approved (after session_approved)).
  assert (Hl : approvals (after session_approved) !! "INV-1" = Some 0)
    by (vm_compute; reflexivity).
  destruct (resubmit_replaces_entry (after session_approved) inv1 0 Hr Hl)
    as (_ & _ & _ & _ & _ & Hfresh).
  exact Hfresh.
Defined.

Lemma timeout_auto_reject_witness :
  ∃ w1 w2,
    run_task 0 (after session_expired) = Some w1
    ∧ stored_status w1 "INV-1" = Some rejected
    ∧ run_task 0 w1 = Some w2
    ∧ stored_status w2 "INV-1" = Some rejected
    ∧ payments w2 = payments (after session_expired)
    ∧ call_tool "check_invoice_status" inv1 w2
      = (w2, Ok ("Invoice INV-1:" +:+ nl +:+ "Status: rejected" +:+ nl
                 +:+ "Total Amount: $150" +:+ nl +:+ nl +:+ "Result:" +:+ nl
                 +:+ "REJECTED due to timeout")).
Proof.
  assert (Hr : reachable (after session_expired))
    by by apply (after_reachable session_expired (after session_expired)).
  assert (Ht : tasks (after session_expired) !! 0 = Some inv1_polling)
    by (vm_compute; reflexivity).
  assert (Hg : approvals_get (after session_expired) "INV-1"
               = Some (0, inv1_state pending None))
    by (vm_compute; reflexivity).
  assert (Hwake : (1000 ≤ now (after session_expired))%Z) by by vm_compute.
  assert (Hlate : (timeout ≤ now (after session_expired) - 0)%Z) by by vm_compute.
  exact (timeout_auto_reject (after session_expired) 0 inv1_polling 0 1000
           0 (inv1_state pending None) [consulting; expenses]
           Hr Ht eq_refl Hg eq_refl Hwake Hlate).
Defined.

Lemma illegal_decision_rejected_witness :
  call_tool "approve_invoice" inv1 (after session_completed)
  = (after session_completed,
     Throw "Invoice INV-1 is not pending (status: completed)").
Proof.
  assert (Hs : stored_status (after session_completed) (invoice_id inv1) ≠ Some pending)
    by (vm_compute; discriminate).
  exact (illegal_decision_rejected "approve_invoice" inv1 (after session_completed)
           (or_introl eq_refl) Hs).
Defined.

Lemma payments_in_line_order_witness :
  ("COMPLETED" +:+ nl +:+ "Processed payment for consulting: $100" +:+ nl
   +:+ "Processed payment for expenses: $50"
   = "COMPLETED" +:+ nl +:+ String.concat nl (processPayment <$> [consulting; expenses])
   ∧ paid (after session_completed) 0 = [consulting; expenses])
  ∧ ∃ w',
      exec [Run 0; Tick paymentDelay; Run 0; Tick paymentDelay; Run 0]
        (after session_approved_due) = Some w'
      ∧ tasks w' !! 0
        = Some (with_pc (Returned ("COMPLETED" +:+ nl
                                   +:+ "Processed payment for consulting: $100" +:+ nl
                                   +:+ "Processed payment for expenses: $50"))
                  inv1_polling)
      ∧ paid w' 0 = [consulting; expenses]
      ∧ approvals_get w' "INV-1"
        = Some (0, inv1_state completed
                     (Some ("Processed payment for consulting: $100" +:+ nl
                            +:+ "Processed payment for expenses: $50"))).
Proof.
  split.
  - assert (Hr : reachable (after session_completed))
      by by apply (after_reachable session_completed (after session_completed)).
    assert (Ht : tasks (after session_completed) !! 0
                 = Some (with_pc (Returned ("COMPLETED" +:+ nl
                                            +:+ "Processed payment for consulting: $100" +:+ nl
                                            +:+ "Processed payment for expenses: $50"))
                           (with_callbacks [] inv1_polling)))
      by (vm_compute; reflexivity).
    exact (proj1 payments_in_line_order (after session_completed) 0 _ _
             Hr Ht eq_refl eq_refl).
  - assert (Hr : reachable (after session_approved_due))
      by by apply (after_reachable session_approved_due (after session_approved_due)).
    assert (Ht : tasks (after session_approved_due) !! 0 = Some inv1_polling)
      by (vm_compute; reflexivity).
    assert (Hg : approvals_get (after session_approved_due) "INV-1"
                 = Some (0, inv1_state approved None))
      by (vm_compute; reflexivity).
    assert (Hwake : (1000 ≤ now (after session_approved_due))%Z) by by vm_compute.
    exact (proj2 payments_in_line_order (after session_approved_due) 0 inv1_polling
             0%Z 1000%Z 0 (inv1_state approved None) Hr Ht eq_refl Hwake Hg eq_refl).
Defined.

Lemma no_payment_on_rejection_witness :
  paid (after session_timed_out) 0 = []
  ∧ ∃ w' r,
      run_task 0 (after session_rejected_due) = Some w'
      ∧ tasks w' !! 0 = Some (with_pc (Returned r) inv1_polling)
      ∧ is_rejection r
      ∧ stored_status w' "INV-1" = Some rejected
      ∧ payments w' = payments (after session_rejected_due)
      ∧ paid w' 0 = [].
Proof.
  split.
  - assert (Hr : reachable (after session_timed_out))
      by by apply (after_reachable session_timed_out (after session_timed_out)).
    assert (Ht : tasks (after session_timed_out) !! 0
                 = Some (with_pc (Returned "REJECTED due to timeout") inv1_polling))
      by (vm_compute; reflexivity).
    apply (proj1 (no_payment_on_rejection (after session_timed_out) 0 _ Hr Ht)
             "REJECTED due to timeout" eq_refl).
    right. by left.
  - assert (Hr : reachable (after session_rejected_due))
      by by apply (after_reachable session_rejected_due (after session_rejected_due)).
    assert (Ht : tasks (after session_rejected_due) !! 0 = Some inv1_polling)
      by (vm_compute; reflexivity).
    assert (Hg : approvals_get (after session_rejected_due) "INV-1"
                 = Some (0, inv1_state rejected None))
      by (vm_compute; reflexivity).
    assert (Hwake : (1000 ≤ now (after session_rejected_due))%Z) by by vm_compute.
    exact (proj2 (no_payment_on_rejection (after session_rejected_due) 0 _ Hr Ht)
             0%Z 1000%Z 0 (inv1_state rejected None) eq_refl Hwake Hg
             (or_introl eq_refl)).
Defined.

Lemma status_moves_forward_witness :
  ∃ s', stored_status (after (session_approved_due ++ [Run 0])) "INV-1" = Some s'
        ∧ forward approved s'.
Proof.
  assert (Hr : reachable (after session_approved_due))
    by by apply (after_reachable session_approved_due (after session_approved_due)).
  assert (Hstep : step (Run 0) (after session_approved_due)
                  = Some (after (session_approved_due ++ [Run 0])))
    by (vm_compute; reflexivity).
  assert (Hnw : ¬ writes_pending (Run 0) (after session_approved_due) "INV-1").
  { intros (t & Ht & Hpc & _). vm_compute in Ht. injection Ht as <-. discriminate Hpc. }
  assert (Hs : stored_status (after session_approved_due) "INV-1" = Some approved)
    by (vm_compute; reflexivity).
  exact (status_moves_forward (after session_approved_due) (Run 0) _ "INV-1" approved
           Hr Hstep Hnw Hs).
Defined.

Lemma check_invoice_status_contract_witness :
  call_tool "check_invoice_status" inv1 (after session_completed)
  = (after session_completed,
     Ok ("Invoice INV-1:" +:+ nl +:+ "Status: completed" +:+ nl
         +:+ "Total Amount: $150" +:+ nl +:+ nl +:+ "Result:" +:+ nl
         +:+ "COMPLETED" +:+ nl
         +:+ "Processed payment for consulting: $100" +:+ nl
         +:+ "Processed payment for expenses: $50")).
Proof.
  assert (Hr : reachable (after session_completed))
    by by apply (after_reachable session_completed (after session_completed)).
  assert (Hl : approvals (after session_completed) !! invoice_id inv1 = Some 0)
    by (vm_compute; reflexivity).
  destruct (proj2 (check_invoice_status_contract (after session_completed) inv1 Hr) 0 Hl)
    as (st & Hst & _ & _ & Hcall).
  assert (Hst' : heap (after session_completed) !! 0
                 = Some (inv1_state completed
                           (Some ("COMPLETED" +:+ nl
                                  +:+ "Processed payment for consulting: $100" +:+ nl
                                  +:+ "Processed payment for expenses: $50"))))
    by (vm_compute; reflexivity).
  assert (st = inv1_state completed
                 (Some ("COMPLETED" +:+ nl
                        +:+ "Processed payment for consulting: $100" +:+ nl
                        +:+ "Processed payment for expenses: $50"))) as -> by congruence.
  exact Hcall.
Defined.

Lemma total_amount_is_sum_witness :
  (100 + 50 = 150)%Z
  ∧ call_tool "check_invoice_status" inv1 (after session_submitted)
    = (after session_submitted,
       Ok ("Invoice INV-1:" +:+ nl +:+ "Status: pending" +:+ nl
           +:+ "Total Amount: $150" +:+ nl)).
Proof.
  assert (Hr : reachable (after session_submitted))
    by by apply (after_reachable session_submitted (after session_submitted)).
  assert (Hg : approvals_get (after session_submitted) (invoice_id inv1)
               = Some (0, inv1_state pending None))
    by (vm_compute; reflexivity).
  destruct (total_amount_is_sum (after session_submitted) inv1 Hr) as [_ Hstored].
  rewrite Hg in Hstored. destruct Hstored as [Htotal Hcheck].
  split; [exact Htotal | exact Hcheck].
Defined.

Lemma decision_timeout_race_witness :
  (∃ w1 w2 t2,
     call_tool "approve_invoice" inv1 (after session_expired)
     = (w1, Ok "Invoice INV-1 approved! Processing payments...")
     ∧ run_task 0 w1 = Some w2
     ∧ tasks w2 !! 0 = Some t2
     ∧ pc t2 = Paying 0 [] consulting [expenses] 300100
     ∧ stored_status w2 "INV-1" = Some processing
     ∧ payments w2 = [(0, consulting)])
  ∧ (∃ w1 t1,
       run_task 0 (after session_expired) = Some w1
       ∧ tasks w1 !! 0 = Some t1
       ∧ pc t1 = Returned "REJECTED due to timeout"
       ∧ stored_status w1 "INV-1" = Some rejected
       ∧ payments w1 = []
       ∧ call_tool "approve_invoice" inv1 w1
         = (w1, Throw "Invoice INV-1 is not pending (status: rejected)")).
Proof.
  assert (Ht : tasks (after session_expired) !! 0 = Some inv1_polling)
    by (vm_compute; reflexivity).
  assert (Hg : approvals_get (after session_expired) "INV-1"
               = Some (0, inv1_state pending None))
    by (vm_compute; reflexivity).
  assert (Hwake : (1000 ≤ now (after session_expired))%Z) by by vm_compute.
  assert (Hlate : (timeout ≤ now (after session_expired) - 0)%Z) by by vm_compute.
  exact (decision_timeout_race (after session_expired) 0 inv1_polling 0 1000 0
           (inv1_state pending None) inv1 Ht eq_refl eq_refl Hg eq_refl Hwake Hlate).
Defined.

Lemma rejection_reason_recorded_witness :
  ∃ w1 w2 t1,
    run_task 0 (after session_rejected_due) = Some w1
    ∧ tasks w1 !! 0 = Some t1 ∧ pc t1 = Returned "REJECTED by user"
    ∧ run_task 0 w1 = Some w2
    ∧ approvals_get w2 "INV-1"
      = Some (0, inv1_state rejected (Some "REJECTED by user"))
    ∧ call_tool "check_invoice_status" inv1 w2
      = (w2, Ok ("Invoice INV-1:" +:+ nl +:+ "Status: rejected" +:+ nl
                 +:+ "Total Amount: $150" +:+ nl +:+ nl +:+ "Result:" +:+ nl
                 +:+ "REJECTED by user"))
    ∧ "REJECTED by user" ≠ "REJECTED due to timeout".
Proof.
  assert (Hr : reachable (after session_rejected_due))
    by by apply (after_reachable session_rejected_due (after session_rejected_due)).
  assert (Ht : tasks (after session_rejected_due) !! 0 = Some inv1_polling)
    by (vm_compute; reflexivity).
  assert (Hg : approvals_get (after session_rejected_due) "INV-1"
               = Some (0, inv1_state rejected None))
    by (vm_compute; reflexivity).
  assert (Hwake : (1000 ≤ now (after session_rejected_due))%Z) by by vm_compute.
  assert (Hlive : (now (after session_rejected_due) - 0 < timeout)%Z) by by vm_compute.
  exact (rejection_reason_recorded (after session_rejected_due) 0 inv1_polling 0 1000
           0 (inv1_state rejected None) [consulting; expenses]
           Hr Ht eq_refl Hg Hwake (or_introl (conj eq_refl Hlive))).
Defined.

(** ** The further properties at work *)

Lemma advertised_tools_are_served_witness :
  call_tool "pay_invoice" inv1 (init 0) = (init 0, Throw "Unknown tool: pay_invoice").
Proof.
  assert (Hn : "pay_invoice" ∉ tool_name <$> list_tools).
  { intros Hin. repeat (apply elem_of_cons in Hin as [Hin | Hin]; [discriminate Hin|]).
    by apply elem_of_nil in Hin. }
  exact (proj1 (proj2 (advertised_tools_are_served "pay_invoice" inv1 (init 0))) Hn).
Defined.

Lemma decision_on_pending_witness :
  ∃ w',
    call_tool "reject_invoice" inv1 (after session_submitted)
    = (w', Ok "Invoice INV-1 rejected.")
    ∧ approvals_get w' "INV-1" = Some (0, inv1_state rejected None)
    ∧ tasks w' = tasks (after session_submitted)
    ∧ payments w' = payments (after session_submitted).
Proof.
  assert (Hr : reachable (after session_submitted))
    by by apply (after_reachable session_submitted (after session_submitted)).
  assert (Hg : approvals_get (after session_submitted) (invoice_id inv1)
               = Some (0, inv1_state pending None))
    by (vm_compute; reflexivity).
  destruct (decision_on_pending (after session_submitted) "reject_invoice" inv1 0
              (inv1_state pending None) Hr (or_intror eq_refl) Hg eq_refl)
    as (w' & Hcall & Hentry & _ & _ & Htasks & Hpay & _).
  exists w'. split; [exact Hcall|]. split; [exact Hentry|].
  split; [exact Htasks | exact Hpay].
Defined.

Lemma first_decision_wins_witness :
  call_tool "reject_invoice" inv1 (after (session_approved_due ++ [Run 0]))
  = (after (session_approved_due ++ [Run 0]),
     Throw "Invoice INV-1 is not pending (status: processing)").
Proof.
  assert (Hr : reachable (after session_submitted))
    by by apply (after_reachable session_submitted (after session_submitted)).
  assert (Hs : stored_status (after session_submitted) (invoice_id inv1) = Some pending)
    by (vm_compute; reflexivity).
  assert (Hstarted : workflows_started (after session_submitted) (invoice_id inv1)).
  { intros k t Ht _ Hpc. destruct k as [|k]; vm_compute in Ht; [|discriminate Ht].
    injection Ht as <-. discriminate Hpc. }
  assert (Hall : Forall (λ ev, ¬ resubmits (invoice_id inv1) ev)
                   [Tick (num := Z) pollInterval; Run 0]).
  { repeat constructor; simpl; tauto. }
  assert (Hex : exec [Tick pollInterval; Run 0]
                  (fst (call_tool "approve_invoice" inv1 (after session_submitted)))
                = Some (after (session_approved_due ++ [Run 0])))
    by (vm_compute; reflexivity).
  destruct (first_decision_wins (after session_submitted) "approve_invoice"
              "reject_invoice" inv1 inv1 _ _ Hr (or_introl eq_refl) (or_intror eq_refl)
              eq_refl Hs Hstarted Hall Hex) as (s & Hs' & _ & Hcall).
  assert (s = processing) as -> by (vm_compute in Hs'; congruence).
  exact Hcall.
Defined.

Lemma tool_calls_leave_workflows_witness :
  payments (fst (call_tool "submit_invoice" inv1 (after session_submitted)))
  = payments (after session_submitted)
  ∧ now (fst (call_tool "submit_invoice" inv1 (after session_submitted)))
    = now (after session_submitted)
  ∧ ∃ t', tasks (fst (call_tool "submit_invoice" inv1 (after session_submitted))) !! 0
          = Some t'
          ∧ pc t' = Sleeping 0 1000 ∧ t_invoice t' = inv1_invoice
          ∧ exec_id t' = "invoice-INV-1".
Proof.
  assert (Ht : tasks (after session_submitted) !! 0 = Some inv1_polling)
    by (vm_compute; reflexivity).
  exact (tool_calls_leave_workflows "submit_invoice" inv1 (after session_submitted)
           0 inv1_polling Ht).
Defined.

Lemma payment_needs_approval_witness :
  ∃ k t line,
    Run (num := Z) 0 = Run k
    ∧ tasks (after session_approved_due) !! k = Some t
    ∧ payments (after (session_approved_due ++ [Run 0]))
      = payments (after session_approved_due) ++ [(k, line)]
    ∧ line ∈ lines (t_invoice t)
    ∧ ((∃ l results current rest readyAt,
          pc t = Paying l results current rest readyAt)
       ∨ ((∃ startTime wakeAt, pc t = Sleeping startTime wakeAt)
          ∧ stored_status (after session_approved_due) (id (t_invoice t))
            = Some approved)).
Proof.
  assert (Hr : reachable (after session_approved_due))
    by by apply (after_reachable session_approved_due (after session_approved_due)).
  assert (Hstep : step (Run 0) (after session_approved_due)
                  = Some (after (session_approved_due ++ [Run 0])))
    by (vm_compute; reflexivity).
  assert (Hpay : payments (after (session_approved_due ++ [Run 0]))
                 ≠ payments (after session_approved_due))
    by (vm_compute; discriminate).
  exact (payment_needs_approval (after session_approved_due) (Run 0) _ Hr Hstep Hpay).
Defined.

Lemma paid_lines_are_a_prefix_witness :
  paid (after (session_approved_due ++ [Run 0])) 0 `prefix_of` [consulting; expenses].
Proof.
  assert (Hr : reachable (after (session_approved_due ++ [Run 0])))
    by by apply (after_reachable (session_approved_due ++ [Run 0])
                   (after (session_approved_due ++ [Run 0]))).
  exact (paid_lines_are_a_prefix (after (session_approved_due ++ [Run 0])) 0 Hr).
Defined.

Lemma workflow_results_witness :
  ("REJECTED due to timeout" = "REJECTED by user"
   ∨ "REJECTED due to timeout" = "REJECTED due to timeout"
   ∨ "REJECTED due to timeout" = "REJECTED")
  ∧ paid (after session_timed_out) 0 = []
  ∨ "REJECTED due to timeout"
    = "COMPLETED" +:+ nl +:+ String.concat nl (processPayment <$> [consulting; expenses])
    ∧ paid (after session_timed_out) 0 = [consulting; expenses].
Proof.
  assert (Hr : reachable (after session_timed_out))
    by by apply (after_reachable session_timed_out (after session_timed_out)).
  assert (Ht : tasks (after session_timed_out) !! 0
               = Some (with_pc (Returned "REJECTED due to timeout") inv1_polling))
    by (vm_compute; reflexivity).
  exact (workflow_results (after session_timed_out) 0 _ "REJECTED due to timeout"
           Hr Ht eq_refl).
Defined.

Lemma known_ids_stay_known_witness :
  ∃ l st,
    approvals_get (after session_completed) "INV-1" = Some (l, st)
    ∧ call_tool "check_invoice_status" inv1 (after session_completed)
      = (after session_completed, Ok (status_report "INV-1" st)).
Proof.
  assert (Hr : reachable (after session_submitted))
    by by apply (after_reachable session_submitted (after session_submitted)).
  assert (Hes : exec [Call "approve_invoice" inv1; Tick pollInterval; Run 0;
                      Tick paymentDelay; Run 0; Tick paymentDelay; Run 0; Run 0]
                  (after session_submitted) = Some (after session_completed))
    by (vm_compute; reflexivity).
  assert (Hk : is_Some (approvals (after session_submitted) !! invoice_id inv1))
    by (vm_compute; by eexists).
  exact (known_ids_stay_known (after session_submitted) _ (after session_completed)
           inv1 Hr Hes Hk).
Defined.

Lemma stored_invoice_is_stable_witness :
  ∃ st', approvals_get (after session_approved) "INV-1" = Some (0, st')
         ∧ invoice st' = inv1_invoice.
Proof.
  assert (Hstep : step (Call "approve_invoice" inv1) (after session_submitted)
                  = Some (after session_approved))
    by (vm_compute; reflexivity).
  assert (Hsub : ∀ args : Args (num := Z),
            Call "approve_invoice" inv1 = Call "submit_invoice" args →
            invoice_id args ≠ "INV-1")
    by (intros args Heq; discriminate Heq).
  assert (Hg : approvals_get (after session_submitted) "INV-1"
               = Some (0, inv1_state pending None))
    by (vm_compute; reflexivity).
  exact (stored_invoice_is_stable (after session_submitted) (Call "approve_invoice" inv1)
           (after session_approved) "INV-1" 0 (inv1_state pending None)
           Hstep Hsub Hg).
Defined.

Lemma no_premature_timeout_witness :
  ∃ w',
    exec (Run 0 :: poll_schedule 0 299) (after [Call "submit_invoice" inv1]) = Some w'
    ∧ stored_status w' "INV-1" = Some pending
    ∧ tasks w' !! 0
      = Some (with_pc (Sleeping 0 (now w' + pollInterval)) (with_pc NotStarted inv1_polling))
    ∧ now w' = (0 + Z.of_nat 299 * pollInterval)%Z
    ∧ payments w' = [].
Proof.
  assert (Ht : tasks (after [Call "submit_invoice" inv1]) !! 0
               = Some (with_pc NotStarted inv1_polling))
    by (vm_compute; reflexivity).
  assert (Hg : approvals_get (after [Call "submit_invoice" inv1]) "INV-1"
               = Some (0, inv1_state pending None))
    by (vm_compute; reflexivity).
  assert (Hn : (Z.of_nat 299 * pollInterval < timeout)%Z) by by vm_compute.
  exact (no_premature_timeout (after [Call "submit_invoice" inv1]) 0
           (with_pc NotStarted inv1_polling) 0 (inv1_state pending None) 299
           Ht eq_refl Hg Hn).
Defined.

Lemma late_poll_returns_plain_rejected_witness :
  ∃ w2,
    run_task 0 (after (session_rejected ++ [Tick timeout]))
    = Some (set_pc 0 (Returned "REJECTED") (after (session_rejected ++ [Tick timeout])))
    ∧ run_task 0 (set_pc 0 (Returned "REJECTED")
                    (after (session_rejected ++ [Tick timeout]))) = Some w2
    ∧ approvals_get w2 "INV-1" = Some (0, inv1_state rejected (Some "REJECTED"))
    ∧ payments w2 = payments (after (session_rejected ++ [Tick timeout]))
    ∧ call_tool "check_invoice_status" inv1 w2
      = (w2, Ok ("Invoice INV-1:" +:+ nl +:+ "Status: rejected" +:+ nl
                 +:+ "Total Amount: $150" +:+ nl +:+ nl +:+ "Result:" +:+ nl
                 +:+ "REJECTED")).
Proof.
  assert (Hr : reachable (after (session_rejected ++ [Tick timeout])))
    by by apply (after_reachable (session_rejected ++ [Tick timeout])
                   (after (session_rejected ++ [Tick timeout]))).
  assert (Ht : tasks (after (session_rejected ++ [Tick timeout])) !! 0
               = Some inv1_polling)
    by (vm_compute; reflexivity).
  assert (Hg : approvals_get (after (session_rejected ++ [Tick timeout])) "INV-1"
               = Some (0, inv1_state rejected None))
    by (vm_compute; reflexivity).
  assert (Hwake : (1000 ≤ now (after (session_rejected ++ [Tick timeout])))%Z)
    by by vm_compute.
  assert (Hlate : (timeout ≤ now (after (session_rejected ++ [Tick timeout])) - 0)%Z)
    by by vm_compute.
  assert (Hnp : status (inv1_state rejected None) ≠ pending) by discriminate.
  assert (Hna : status (inv1_state rejected None) ≠ approved) by discriminate.
  exact (late_poll_returns_plain_rejected (after (session_rejected ++ [Tick timeout]))
           0 inv1_polling 0 1000 0 (inv1_state rejected None) [consulting; expenses]
           Hr Ht eq_refl Hwake Hlate Hg Hnp Hna).
Defined.

Lemma first_block_resets_and_sleeps_witness :
  ∃ w',
    run_task 0 (after [Call "submit_invoice" inv1; Call "approve_invoice" inv1]) = Some w'
    ∧ approvals_get w' "INV-1" = Some (0, inv1_state pending None)
    ∧ tasks w' !! 0 = Some inv1_polling
    ∧ payments w' = [].
Proof.
  assert (Ht : tasks (after [Call "submit_invoice" inv1; Call "approve_invoice" inv1]) !! 0
               = Some (with_pc NotStarted inv1_polling))
    by (vm_compute; reflexivity).
  assert (Hg : approvals_get
                 (after [Call "submit_invoice" inv1; Call "approve_invoice" inv1]) "INV-1"
               = Some (0, inv1_state approved None))
    by (vm_compute; reflexivity).
  destruct (first_block_resets_and_sleeps
              (after [Call "submit_invoice" inv1; Call "approve_invoice" inv1]) 0
              (with_pc NotStarted inv1_polling) 0 (inv1_state approved None)
              Ht eq_refl Hg)
    as (w' & Hrun & Hentry & Htask & Hpay & _).
  exists w'. split; [exact Hrun|]. split; [exact Hentry|].
  split; [exact Htask | exact Hpay].
Defined.

Lemma submitted_invoice_times_out_witness :
  ∃ w',
    exec (Call "submit_invoice" inv1 :: Run 0
          :: poll_schedule 0 299 ++ [Tick pollInterval; Run 0; Run 0]) (init 0)
    = Some w'
    ∧ payments w' = []
    ∧ call_tool "check_invoice_status" inv1 w'
      = (w', Ok ("Invoice INV-1:" +:+ nl +:+ "Status: rejected" +:+ nl
                 +:+ "Total Amount: $150" +:+ nl +:+ nl +:+ "Result:" +:+ nl
                 +:+ "REJECTED due to timeout")).
Proof.
  assert (Hr : reachable (init (num := Z) 0)) by by exists 0%Z, [].
  assert (Hnew : approvals (init (num := Z) 0) !! invoice_id inv1 = None)
    by (vm_compute; reflexivity).
  exact (submitted_invoice_times_out (init 0) inv1 Hr Hnew).
Defined.

Lemma first_submission_starts_workflow_witness :
  tasks (fst (call_tool "submit_invoice" empty_invoice (after session_completed)))
  = tasks (after session_completed)
    ++ [{| exec_id := "invoice-INV-0";
           t_invoice := {| id := "INV-0"; lines := []; totalAmount := 0%Z |};
           pc := NotStarted; callbacks := ["INV-0"] |}]
  ∧ approvals_get (fst (call_tool "submit_invoice" empty_invoice (after session_completed)))
      "INV-0"
    = Some (1, {| status := pending;
                  invoice := {| id := "INV-0"; lines := []; totalAmount := 0%Z |};
                  result := None |})
  ∧ payments (fst (call_tool "submit_invoice" empty_invoice (after session_completed)))
    = payments (after session_completed).
Proof.
  assert (Hr : reachable (after session_completed))
    by by apply (after_reachable session_completed (after session_completed)).
  assert (Hnew : approvals (after session_completed) !! invoice_id empty_invoice = None)
    by (vm_compute; reflexivity).
  exact (first_submission_starts_workflow (after session_completed) empty_invoice
           Hr Hnew).
Defined.
